(** * torch_utils: metric normalisation, evaluation mode, checkpoints, training loop

    A shallow embedding of [torch_utils/model.py] and [torch_utils/train.py].
    Python values are finite trees, the file system is a finite map from
    paths to nodes, and code that raises returns in an error monad that
    keeps the side effects made before the exception. *)

From stdpp Require Import gmap strings list fin_maps pretty sorting.
From Stdlib Require Import ZArith QArith Lia Ascii.

Set Warnings "-register-all".

Open Scope Z_scope.
Open Scope list_scope.

(** ** Python numbers *)

(** A Python [float] as far as comparisons see it: the finite doubles are
    ordered like the rationals they denote, the infinities sit at both ends
    and every comparison with NaN is false. *)
Inductive pyfloat :=
  | FNaN
  | FNegInf
  | FFin (q : Q)
  | FPosInf.

Definition float_le (a b : pyfloat) : bool :=
  match a, b with
  | FNaN, _ | _, FNaN => false
  | FNegInf, _ => true
  | _, FPosInf => true
  | FFin p, FFin q => Qle_bool p q
  | _, _ => false
  end.

Definition float_ge (a b : pyfloat) : bool :=
  match a, b with
  | FNaN, _ | _, FNaN => false
  | FPosInf, _ => true
  | _, FNegInf => true
  | FFin p, FFin q => Qle_bool q p
  | _, _ => false
  end.

Definition float_gt (a b : pyfloat) : bool :=
  match a, b with
  | FNaN, _ | _, FNaN => false
  | FFin p, FFin q => negb (Qle_bool p q)
  | FPosInf, FPosInf | FNegInf, _ => false
  | FPosInf, _ => true
  | _, FNegInf => true
  | _, _ => false
  end.

Definition is_nan (a : pyfloat) : bool :=
  match a with FNaN => true | _ => false end.

Inductive number :=
  | NInt (z : Z)
  | NFloat (f : pyfloat)
  | NBool (b : bool).

(** * model.py *)

Module ModelUtils.

(** ** [evaluating] *)

(** What [evaluating] touches of a [torch.nn.Module]: the [training]
    attribute; the parameters and buffers ride along. *)
Record Net := mkNet {
  training : bool;
  params : N;
}.

(** [net.train()] and [net.eval()]. *)
Definition train_ (net : Net) : Net := mkNet true (params net).
Definition eval_ (net : Net) : Net := mkNet false (params net).

(** How the body of a [with] block ends. *)
Inductive outcome :=
  | Completed
  | Raised (exn : string).

(** A block is any code run against the net yielded by the manager. *)
Definition block := Net -> Net * outcome.

(** [with evaluating(net): body].  The generator saves [net.training],
    calls [net.eval()], yields; the [finally] clause runs on both ways
    out of the body and calls [net.train()] only when the saved flag was
    true.  An exception of the body propagates after the clause. *)
Definition evaluating (net : Net) (body : block) : Net * outcome :=
  let istrain := training net in
  let '(net', out) := body (eval_ net) in
  ((if istrain then train_ net' else net'), out).

(** ** [_CalcMetricsWrapper._normalize] *)

(** Iterables that are neither [dict], [list], [ndarray] nor [Tensor]. *)
Inductive iter_kind :=
  | KTuple
  | KSet
  | KOther.

(** Metric values as finite trees.  A [dict] keeps its insertion order, an
    array or tensor is its shape with its elements in row-major order.
    ([str] has no place here: iterating a one-character string yields that
    string again, so it is not a finite tree.  [Metrics] below has the
    values with [str] and the recursion limit, and what [_normalize] does
    with them; on the values of this type that nest within the limit the
    two agree.) *)
Inductive value :=
  | VDict (items : list (string * value))
  | VList (elems : list value)
  | VNdArray (shape : list nat) (data : list number)
  | VTensor (requires_grad : bool) (shape : list nat) (data : list number)
  | VIter (kind : iter_kind) (elems : list value)
  | VNum (n : number)
  | VNone
  | VObject (id : nat).

(** [torch.squeeze(t).shape]: the dimensions of size one are dropped. *)
Definition squeeze_shape (shape : list nat) : list nat :=
  filter (fun d => d ≠ 1%nat) shape.

Definition numel (shape : list nat) : nat := foldr Nat.mul 1%nat shape.

(** [t.item()] of a tensor that holds one element. *)
Definition item (data : list number) : number :=
  match data with
  | x :: _ => x
  | [] => NInt 0
  end.

(** A tensor or array holds as many elements as its shape says. *)
Definition wf_data (shape : list nat) (data : list number) : Prop :=
  length data = numel shape.

Fixpoint normalize_item (it : value) : value :=
  match it with
  | VDict items =>
      VDict (map (fun kv => match kv with (k, v) => (k, normalize_item v) end) items)
  | VList elems => VList (map normalize_item elems)
  | VNdArray shape data => VNdArray shape data
  | VTensor rg shape data =>
      match squeeze_shape shape with
      | _ :: _ => VTensor false shape data
      | [] => VNum (item data)
      end
  | VIter _ elems => VIter KTuple (map normalize_item elems)
  | VNum n => VNum n
  | VNone => VNone
  | VObject id => VObject id
  end.

Definition normalize (metrics : value) : value := normalize_item metrics.

End ModelUtils.

(** * model.py: [_normalize] with strings *)

Module Metrics.

Import ModelUtils.

(** Metric values, [str] included.  A [str] is an iterable of its
    characters, and each character is a [str] of length one. *)
Inductive metric :=
  | MStr (s : string)
  | MDict (items : list (string * metric))
  | MList (elems : list metric)
  | MNdArray (shape : list nat) (data : list number)
  | MTensor (requires_grad : bool) (shape : list nat) (data : list number)
  | MIter (kind : iter_kind) (elems : list metric)
  | MNum (n : number)
  | MNone
  | MObject (id : nat).

(** A call returns or ends in [RecursionError]. *)
Inductive answer (A : Type) :=
  | Returned (a : A)
  | RecursionError.
Arguments Returned {A} a.
Arguments RecursionError {A}.

Definition answer_map {A B} (f : A -> B) (r : answer A) : answer B :=
  match r with
  | Returned a => Returned (f a)
  | RecursionError => RecursionError
  end.

(** The elements of a comprehension, if every one of them returned. *)
Fixpoint collect {A} (l : list (answer A)) : answer (list A) :=
  match l with
  | [] => Returned []
  | Returned a :: rest => answer_map (cons a) (collect rest)
  | RecursionError :: _ => RecursionError
  end.

(** The characters of a [str], each a [str] of length one. *)
Definition characters (s : string) : list metric :=
  map (fun c => MStr (String c EmptyString)) (String.list_ascii_of_string s).

(** [normalize_item], lines 37-52.  [limit] is the number of nested
    calls of [normalize_item] the interpreter still allows; beyond it
    Python raises [RecursionError].  The tests are made in the order of
    the source, so a [str] reaches the branch of the iterables and is
    iterated like any of them. *)
Fixpoint normalize_item (limit : nat) (it : metric) : answer metric :=
  match limit with
  | O => RecursionError
  | S limit =>
      match it with
      | MDict items =>
          answer_map MDict
            (collect (map (fun kv => match kv with
                                     | (k, v) => answer_map (pair k) (normalize_item limit v)
                                     end) items))
      | MList elems => answer_map MList (collect (map (normalize_item limit) elems))
      | MNdArray shape data => Returned (MNdArray shape data)
      | MTensor rg shape data =>
          match squeeze_shape shape with
          | _ :: _ => Returned (MTensor false shape data)
          | [] => Returned (MNum (item data))
          end
      | MStr s =>
          answer_map (MIter KTuple) (collect (map (normalize_item limit) (characters s)))
      | MIter _ elems =>
          answer_map (MIter KTuple) (collect (map (normalize_item limit) elems))
      | MNum n => Returned (MNum n)
      | MNone => Returned MNone
      | MObject id => Returned (MObject id)
      end
  end.

Definition normalize (limit : nat) (metrics : metric) : answer metric :=
  normalize_item limit metrics.

(** [sys.getrecursionlimit()] as Python starts: no more nested calls
    than this are made, [normalize_item] or other. *)
Definition recursion_limit : nat := 1000.

(** The values of [ModelUtils] are the metrics without a [str]. *)
Fixpoint embed (v : value) : metric :=
  match v with
  | VDict items => MDict (map (fun kv => match kv with (k, x) => (k, embed x) end) items)
  | VList elems => MList (map embed elems)
  | VNdArray shape data => MNdArray shape data
  | VTensor rg shape data => MTensor rg shape data
  | VIter kind elems => MIter kind (map embed elems)
  | VNum n => MNum n
  | VNone => MNone
  | VObject id => MObject id
  end.

(** No [str] but the empty one occurs among the values (the keys of a
    dict are not values). *)
Fixpoint str_free (m : metric) : bool :=
  match m with
  | MStr EmptyString => true
  | MStr (String _ _) => false
  | MDict items => forallb (fun kv => match kv with (_, x) => str_free x end) items
  | MList elems | MIter _ elems => forallb str_free elems
  | MNdArray _ _ | MTensor _ _ _ | MNum _ | MNone | MObject _ => true
  end.

(** How deep the containers of a value nest, the value itself counted. *)
Fixpoint depth (m : metric) : nat :=
  match m with
  | MDict items =>
      S (foldr (fun kv acc => match kv with (_, x) => Nat.max (depth x) acc end) O items)
  | MList elems | MIter _ elems => S (foldr (fun x acc => Nat.max (depth x) acc) O elems)
  | MStr _ | MNdArray _ _ | MTensor _ _ _ | MNum _ | MNone | MObject _ => 1%nat
  end.

(** A metric normalisation has nothing to do on: no [str], no tensor
    that is attached or holds a single element, and every iterable that
    is not a dict, a list or an array is a tuple. *)
Fixpoint normal (m : metric) : bool :=
  match m with
  | MStr _ => false
  | MDict items => forallb (fun kv => match kv with (_, x) => normal x end) items
  | MList elems => forallb normal elems
  | MNdArray _ _ => true
  | MTensor rg shape _ => negb rg && bool_decide (squeeze_shape shape <> [])
  | MIter KTuple elems => forallb normal elems
  | MIter _ _ => false
  | MNum _ | MNone | MObject _ => true
  end.

End Metrics.

(** * train.py *)

Module Train.

(** ** The file system *)

(** A path is its list of components; [os.path.join], [os.path.dirname]
    and [os.path.basename] act on the last one.  A component is a name:
    it is not empty and holds no separator; the empty list is the empty
    path.  Paths are told apart as they are spelled: the disk is keyed by
    the paths the program uses, and [.] is a component like another. *)
Abbreviation path := (list string).

Definition join (dir : path) (name : string) : path := dir ++ [name].
Definition dirname (p : path) : path := removelast p.
Definition basename (p : path) : string := List.last p "".

(** Opaque serialised state of a collaborator ([state_dict()]). *)
Abbreviation blob := N.

Record rng_state := mkRng {
  rng_python : N;
  rng_numpy : N;
  rng_torch : N;
  rng_torch_cuda : option N;
}.

(** The dictionary handed to [torch.save].  The entries [ext.<key>] are
    the map [ck_ext], the optional entry [amp] is [ck_amp]. *)
Record checkpoint_dict := mkCheckpoint {
  ck_rng_state : rng_state;
  ck_state_dict : blob;
  ck_optimizer : blob;
  ck_ext : gmap string blob;
  ck_amp : option blob;
  ck_step : Z;
  ck_loss : pyfloat;
}.

(** What a file is meant to hold: a pickled checkpoint or something else. *)
Inductive content :=
  | Pickled (d : checkpoint_dict)
  | Raw (bytes : N).

(** A file is [whole] once its writer has written everything and closed
    it; until then the name shows a file that holds only part of [c].
    A symbolic link stores a name relative to its own directory. *)
Inductive node :=
  | File (whole : bool) (c : content)
  | Symlink (target : string)
  | Dir.

Abbreviation filesystem := (gmap path node).

(** Linux gives up after 40 nested links. *)
Definition SYMLOOP_MAX : nat := 40.

(** The entry a path leads to once symbolic links are followed. *)
Fixpoint follow (fuel : nat) (fs : filesystem) (p : path) : path :=
  match fs !! p with
  | Some (Symlink t) =>
      match fuel with
      | O => p
      | S n => follow n fs (join (dirname p) t)
      end
  | _ => p
  end.

Definition stat (fs : filesystem) (p : path) : option node :=
  match fs !! follow SYMLOOP_MAX fs p with
  | Some (Symlink _) => None
  | r => r
  end.

(** [os.path.exists] and [os.path.isfile]: both follow links, so a
    dangling link does not exist. *)
Definition path_exists (fs : filesystem) (p : path) : bool :=
  match stat fs p with Some _ => true | None => false end.

Definition isfile (fs : filesystem) (p : path) : bool :=
  match stat fs p with Some (File _ _) => true | _ => false end.

(** [os.listdir]: the names directly under a directory. *)
Definition listdir (fs : filesystem) (dir : path) : list string :=
  omap (fun kv => match kv with
                  | (p, _) =>
                      match p with
                      | [] => None
                      | _ :: _ => if decide (dirname p = dir) then Some (basename p) else None
                      end
                  end)
       (map_to_list fs).

(** [shutil.rmtree]: the directory and all below it. *)
Definition rmtree (fs : filesystem) (dir : path) : filesystem :=
  filter (fun kv => ¬ (dir `prefix_of` kv.1)) fs.

(** [os.makedirs]: the directory and its missing ancestors.  The path is
    taken to have a name and to meet nothing but directories on its way;
    a statement that needs the call to go through says so in a
    hypothesis. *)
Fixpoint makedirs_from (fs : filesystem) (done todo : path) : filesystem :=
  match todo with
  | [] => fs
  | c :: rest =>
      let d := join done c in
      makedirs_from (match fs !! d with Some _ => fs | None => <[d := Dir]> fs end) d rest
  end.

Definition makedirs (fs : filesystem) (dir : path) : filesystem :=
  makedirs_from fs [] dir.

(** ** The process *)

Inductive exn :=
  | AssertionError
  | KeyError (key : string)
  | IndexError
  | ZeroDivisionError
  | FileNotFoundError (p : path)
  | FileExistsError (p : path)
  | IsADirectoryError (p : path)
  | UnpicklingError (p : path).

(** Calls into the collaborators, in the order they are made.  What a
    collaborator writes on its own, such as the files of the summary
    writer below the summary directory, shows here and not in [fs]. *)
Inductive event :=
  | EvModelLoad (sd : blob) (strict : bool)
  | EvOptimLoad (sd : blob)
  | EvExtLoad (key : string) (module : nat) (state : option blob)
  | EvAmpLoad (sd : blob)
  | EvTorchSave (p : path) (step : Z)
  | EvSummaryWriter (valid : bool)
  | EvEvaluateBatch (valid : bool)
  | EvSummaryWrite (valid : bool) (step : Z)
  | EvTrainEpoch (epoch : Z)
  | EvEvaluate (epoch : Z).

(** The generators a checkpoint captures. *)
Record generators := mkGenerators {
  py_random : N;                 (* random.getstate() *)
  np_random : N;                 (* np.random.get_state() *)
  torch_rng : N;                 (* torch.get_rng_state() *)
  cuda_rng : N;                  (* torch.cuda.get_rng_state() *)
}.

Record world := mkWorld {
  fs : filesystem;
  fs_seen : list filesystem;     (* every state the disk went through, newest first *)
  cuda_available : bool;
  rng : generators;
  net : ModelUtils.Net;
  model_state : blob;
  optimizer_state : blob;
  amp_state : blob;
  ext_state : gmap nat blob;     (* extension modules, by object *)
  events : list event;           (* newest first *)
}.

Inductive result (A : Type) :=
  | Ok (a : A)
  | Raise (e : exn).
Arguments Ok {A} a.
Arguments Raise {A} e.

(** Effects made before an exception stay. *)
Definition M (A : Type) : Type := world -> result A * world.

Definition ret {A} (a : A) : M A := fun w => (Ok a, w).
Definition raise {A} (e : exn) : M A := fun w => (Raise e, w).
Definition bind {A B} (k : A -> M B) (m : M A) : M B :=
  fun w => match m w with
           | (Ok a, w') => k a w'
           | (Raise e, w') => (Raise e, w')
           end.

#[global] Instance M_ret : MRet M := @ret.
#[global] Instance M_bind : MBind M := @bind.

Definition get : M world := fun w => (Ok w, w).
Definition modify (f : world -> world) : M unit := fun w => (Ok tt, f w).

Definition get_fs : M filesystem := fun w => (Ok (fs w), w).

(** Every change of the disk is one state an interruption can leave. *)
Definition put_fs (f : filesystem) : M unit :=
  modify (fun w => mkWorld f (f :: fs_seen w) (cuda_available w) (rng w) (net w)
                     (model_state w) (optimizer_state w) (amp_state w) (ext_state w)
                     (events w)).

Definition emit (e : event) : M unit :=
  modify (fun w => mkWorld (fs w) (fs_seen w) (cuda_available w) (rng w) (net w)
                     (model_state w) (optimizer_state w) (amp_state w) (ext_state w)
                     (e :: events w)).

Definition set_rng (g : generators) : M unit :=
  modify (fun w => mkWorld (fs w) (fs_seen w) (cuda_available w) g (net w)
                     (model_state w) (optimizer_state w) (amp_state w) (ext_state w)
                     (events w)).

Definition set_net (n : ModelUtils.Net) : M unit :=
  modify (fun w => mkWorld (fs w) (fs_seen w) (cuda_available w) (rng w) n
                     (model_state w) (optimizer_state w) (amp_state w) (ext_state w)
                     (events w)).

Definition set_model_state (sd : blob) : M unit :=
  modify (fun w => mkWorld (fs w) (fs_seen w) (cuda_available w) (rng w) (net w)
                     sd (optimizer_state w) (amp_state w) (ext_state w) (events w)).

Definition set_optimizer_state (sd : blob) : M unit :=
  modify (fun w => mkWorld (fs w) (fs_seen w) (cuda_available w) (rng w) (net w)
                     (model_state w) sd (amp_state w) (ext_state w) (events w)).

Definition set_amp_state (sd : blob) : M unit :=
  modify (fun w => mkWorld (fs w) (fs_seen w) (cuda_available w) (rng w) (net w)
                     (model_state w) (optimizer_state w) sd (ext_state w) (events w)).

Definition set_ext_state (m : nat) (sd : blob) : M unit :=
  modify (fun w => mkWorld (fs w) (fs_seen w) (cuda_available w) (rng w) (net w)
                     (model_state w) (optimizer_state w) (amp_state w)
                     (<[m := sd]> (ext_state w)) (events w)).

Definition when (b : bool) (m : M unit) : M unit := if b then m else ret tt.

Fixpoint for_each {A} (l : list A) (body : A -> M unit) : M unit :=
  match l with
  | [] => ret tt
  | x :: rest => body x;; for_each rest body
  end.

(** ** File operations *)

(** [torch.save(obj, path)] opens [path] itself for writing and streams the
    pickle into it: the name shows a file from the first byte on.  The
    directory of the path is taken to be there; a statement that needs
    the write to go through on every disk says so in a hypothesis. *)
Definition torch_save (d : checkpoint_dict) (p : path) : M unit :=
  f ← get_fs;
  let q := follow SYMLOOP_MAX f p in
  match f !! q with
  | Some Dir => raise (IsADirectoryError q)
  | _ =>
      emit (EvTorchSave p (ck_step d));;
      put_fs (<[q := File false (Pickled d)]> f);;
      put_fs (<[q := File true (Pickled d)]> f)
  end.

Definition torch_load (p : path) : M checkpoint_dict :=
  f ← get_fs;
  match stat f p with
  | Some (File true (Pickled d)) => mret d
  | Some _ => raise (UnpicklingError p)
  | None => raise (FileNotFoundError p)
  end.

(** [os.unlink] and [os.remove] take the entry itself, link or file. *)
Definition os_remove (p : path) : M unit :=
  f ← get_fs;
  match f !! p with
  | Some Dir => raise (IsADirectoryError p)
  | Some _ => put_fs (delete p f)
  | None => raise (FileNotFoundError p)
  end.

Definition os_unlink (p : path) : M unit := os_remove p.

(** [os.symlink(src, dst)] refuses a [dst] that is there, dangling link
    included.  The directory of [dst] is taken to be there. *)
Definition os_symlink (src : string) (dst : path) : M unit :=
  f ← get_fs;
  match f !! dst with
  | Some _ => raise (FileExistsError dst)
  | None => put_fs (<[dst := Symlink src]> f)
  end.

(** [shutil.copy2(src, dst)]: the content of [src], links followed, is
    written under [dst].  The directory of [dst] is taken to be there and
    the two paths to lead to different files. *)
Definition shutil_copy2 (src dst : path) : M unit :=
  f ← get_fs;
  match stat f src with
  | Some (File whole c) =>
      let q := follow SYMLOOP_MAX f dst in
      match f !! q with
      | Some Dir => raise (IsADirectoryError q)
      | _ =>
          put_fs (<[q := File false c]> f);;
          put_fs (<[q := File whole c]> f)
      end
  | Some _ => raise (IsADirectoryError src)
  | None => raise (FileNotFoundError src)
  end.

Definition os_makedirs (dir : path) : M unit :=
  f ← get_fs; put_fs (makedirs f dir).

Definition shutil_rmtree (dir : path) : M unit :=
  f ← get_fs; put_fs (rmtree f dir).

(** ** [save_checkpoint] *)

(** [extra_modules] pairs a key with a module object. *)
Abbreviation modules := (list (string * nat)).

Definition module_state_dict (w : world) (m : nat) : blob :=
  default 0%N (ext_state w !! m).

Definition get_rng_state (w : world) : rng_state :=
  mkRng (py_random (rng w)) (np_random (rng w)) (torch_rng (rng w))
        (if cuda_available w then Some (cuda_rng (rng w)) else None).

Definition with_ext (key : string) (sd : blob) (d : checkpoint_dict) : checkpoint_dict :=
  mkCheckpoint (ck_rng_state d) (ck_state_dict d) (ck_optimizer d)
               (<[key := sd]> (ck_ext d)) (ck_amp d) (ck_step d) (ck_loss d).

Definition with_amp (sd : blob) (d : checkpoint_dict) : checkpoint_dict :=
  mkCheckpoint (ck_rng_state d) (ck_state_dict d) (ck_optimizer d)
               (ck_ext d) (Some sd) (ck_step d) (ck_loss d).

(** The dictionary [save_checkpoint] builds before it writes. *)
Definition make_checkpoint_dict (w : world) (step : Z) (loss : pyfloat)
    (extra_modules : option modules) (amp : bool) : checkpoint_dict :=
  let checkpoint_dict :=
    mkCheckpoint (get_rng_state w) (model_state w) (optimizer_state w) ∅ None step loss in
  let checkpoint_dict :=
    match extra_modules with
    | Some ms =>
        foldl (fun d km => match km with
                           | (key, m) => with_ext key (module_state_dict w m) d
                           end) checkpoint_dict ms
    | None => checkpoint_dict
    end in
  if amp then with_amp (amp_state w) checkpoint_dict else checkpoint_dict.

Definition save_checkpoint (checkpoint_path : path) (step : Z) (loss : pyfloat)
    (extra_modules : option modules) (symlink_name : option string) (amp : bool)
    : M unit :=
  w ← get;
  let checkpoint_dict := make_checkpoint_dict w step loss extra_modules amp in
  torch_save checkpoint_dict checkpoint_path;;
  match symlink_name with
  | Some symlink_name =>
      let checkpoint_dir := dirname checkpoint_path in
      let checkpoint_name := basename checkpoint_path in
      let symlink_path := join checkpoint_dir symlink_name in
      f ← get_fs;
      when (path_exists f symlink_path) (os_unlink symlink_path);;
      os_symlink checkpoint_name symlink_path
  | None => mret tt
  end.

(** ** [load_checkpoint] *)

Definition restore_rng_state (r : rng_state) : M unit :=
  w ← get;
  set_rng (mkGenerators (rng_python r) (rng_numpy r) (rng_torch r)
             (match rng_torch_cuda r with
              | Some c => if cuda_available w then c else cuda_rng (rng w)
              | None => cuda_rng (rng w)
              end)).

Definition model_load_state_dict (sd : blob) (strict : bool) : M unit :=
  set_model_state sd;; emit (EvModelLoad sd strict).

Definition optimizer_load_state_dict (sd : blob) : M unit :=
  set_optimizer_state sd;; emit (EvOptimLoad sd).

Definition amp_load_state_dict (sd : blob) : M unit :=
  set_amp_state sd;; emit (EvAmpLoad sd).

(** [module.load_state_dict(state)] of an extension; [state] is [None]
    when the checkpoint has no entry for the key, and what the module
    does then is its own affair. *)
Definition module_load_state_dict (key : string) (m : nat) (state : option blob) : M unit :=
  match state with
  | Some sd => set_ext_state m sd
  | None => mret tt
  end;;
  emit (EvExtLoad key m state).

Definition load_checkpoint (checkpoint_path : path) (model optimizer : bool)
    (extra_modules : option modules) (strict : bool) (amp : bool)
    (load_rnd_state : bool) : M (Z * pyfloat) :=
  f ← get_fs;
  if negb (isfile f checkpoint_path) then raise AssertionError else
  checkpoint_dict ← torch_load checkpoint_path;
  when load_rnd_state (restore_rng_state (ck_rng_state checkpoint_dict));;
  when model (model_load_state_dict (ck_state_dict checkpoint_dict) strict);;
  when optimizer (optimizer_load_state_dict (ck_optimizer checkpoint_dict));;
  match extra_modules with
  | Some ms =>
      for_each ms (fun km =>
        match km with
        | (key, m) =>
            let state := ck_ext checkpoint_dict !! key in
            if strict && bool_decide (state = None)
            then raise (KeyError key)
            else module_load_state_dict key m state
        end)
  | None => mret tt
  end;;
  match ck_amp checkpoint_dict with
  | Some sd => when amp (amp_load_state_dict sd)
  | None => mret tt
  end;;
  mret (ck_step checkpoint_dict, ck_loss checkpoint_dict).

(** ** The checkpoint history *)

(** [\d] on a name written in ASCII: the ten decimal digits.  (In a
    [str] pattern [\d] also takes the decimal digits of other scripts,
    and [int] reads them; the names of the history are taken to be
    written in ASCII.) *)
Definition is_digit (c : ascii) : bool :=
  (48 <=? nat_of_ascii c)%nat && (nat_of_ascii c <=? 57)%nat.

Definition digit_value (c : ascii) : Z := Z.of_nat (nat_of_ascii c) - 48.

(** [int(s)] of a string of decimal digits. *)
Definition int_of_digits (ds : list ascii) : Z :=
  foldl (fun acc c => 10 * acc + digit_value c) 0 ds.

Fixpoint strip_prefix (pre s : list ascii) : option (list ascii) :=
  match pre, s with
  | [], _ => Some s
  | a :: pre', b :: s' => if decide (a = b) then strip_prefix pre' s' else None
  | _ :: _, [] => None
  end.

Definition newline : ascii := ascii_of_nat 10.

(** [re.compile(r'^checkpoint_(\d+).pth$').match(name)], giving
    [int(m.groups()[0])].  After the prefix come one or more digits, one
    character that is not a newline (the dot is not escaped), and [pth];
    [$] also matches before a final newline.  Read from the end, the match
    is unique. *)
Definition checkpoint_regex_match (name : string) : option Z :=
  rest ← strip_prefix (String.list_ascii_of_string "checkpoint_")
                       (String.list_ascii_of_string name);
  let r := rev rest in
  let r := match r with
           | c :: r' => if decide (c = newline) then r' else r
           | [] => r
           end in
  match r with
  | "h"%char :: "t"%char :: "p"%char :: c :: ds =>
      if bool_decide (c ≠ newline) && bool_decide (ds ≠ []) && forallb is_digit ds
      then Some (int_of_digits (rev ds))
      else None
  | _ => None
  end.

(** [sorted(pairs, key=lambda x: x[0])]: stable, ascending. *)
Fixpoint insert_by_key (x : Z * string) (l : list (Z * string)) : list (Z * string) :=
  match l with
  | [] => [x]
  | y :: rest => if x.1 <=? y.1 then x :: l else y :: insert_by_key x rest
  end.

Definition sorted_by_key (l : list (Z * string)) : list (Z * string) :=
  foldr insert_by_key [] l.

(** The names that match, each with its number. *)
Definition numbered (names : list string) : list (Z * string) :=
  omap (fun x => m ← checkpoint_regex_match x; Some (m, x)) names.

(** Lines 223-229: the numbered checkpoints of the directory, oldest
    first. *)
Definition list_checkpoints (f : filesystem) (checkpoint_dir : path) : list string :=
  let checkpoints_history :=
    filter (fun ckpt => isfile f (join checkpoint_dir ckpt) = true) (listdir f checkpoint_dir) in
  match checkpoints_history with
  | [] => checkpoints_history
  | _ :: _ =>
      map snd (sorted_by_key (numbered checkpoints_history))
  end.

(** [f'checkpoint_{epoch}.pth'] *)
Definition checkpoint_name (epoch : Z) : string :=
  "checkpoint_" +:+ pretty epoch +:+ ".pth".

(** Lines 237-240: the loop that meets the limit at start-up.  It also
    rebinds the variable [checkpoint_path]. *)
Fixpoint meet_limit (limit : Z) (checkpoint_dir : path) (checkpoints_history : list string)
    (checkpoint_path : option path) {struct checkpoints_history}
    : M (list string * option path) :=
  if Z.of_nat (length checkpoints_history) >? limit then
    match checkpoints_history with
    | [] => raise IndexError
    | oldest :: rest =>
        let checkpoint_path := join checkpoint_dir oldest in
        os_remove checkpoint_path;;
        meet_limit limit checkpoint_dir rest (Some checkpoint_path)
    end
  else mret (checkpoints_history, checkpoint_path).

(** Lines 367-371: a new name enters the history and, over the limit, the
    head leaves it, once. *)
Definition rotate (limit : option Z) (checkpoint_dir : path) (checkpoints_history : list string)
    (epoch : Z) : M (list string) :=
  let checkpoints_history := checkpoints_history ++ [checkpoint_name epoch] in
  match limit with
  | Some lim =>
      if Z.of_nat (length checkpoints_history) >? lim then
        match checkpoints_history with
        | [] => raise IndexError
        | oldest :: rest => os_remove (join checkpoint_dir oldest);; mret rest
        end
      else mret checkpoints_history
  | None => mret checkpoints_history
  end.

(** ** [train] *)

Record train_args := mkArgs {
  epochs : Z;
  val_dataset : bool;                       (* a validation dataset is given *)
  training_dir : option path;
  checkpoint_path : option path;
  epochs_per_summary : Z;
  epochs_per_checkpoint : Z;
  amp : bool;                               (* an amp object is given *)
  checkpoints_limit : option Z;
  checkpoint_extra_modules : option modules;
}.

(** What one epoch of optimisation leaves behind; decided by the model,
    the optimizer, the datasets and the metrics, not by the loop. *)
Record epoch_obs := mkObs {
  ob_loss : pyfloat;          (* running_metrics['loss'] *)
  ob_val_loss : pyfloat;      (* metrics['loss'] of the validation pass *)
  ob_model : blob;
  ob_optimizer : blob;
  ob_rng : generators;
}.

Record oracle := mkOracle {
  cold_loss : pyfloat;        (* metrics['loss'] of the first training batch *)
  observe : Z -> epoch_obs;
}.

(** The local variables the loop carries. *)
Record locals := mkLocals {
  epoch_offset : Z;
  limit : option Z;
  checkpoint_dir : path;
  checkpoints_history : list string;
  checkpoint_best_data : Z * pyfloat;
}.

Definition checkpoint_last_name : string := "checkpoint_last.pth".

Definition finally {A} (m : M A) (h : M unit) : M A := fun w =>
  match m w with
  | (r, w') =>
      match h w' with
      | (Ok _, w'') => (r, w'')
      | (Raise e, w'') => (Raise e, w'')
      end
  end.

(** [with model_utils.evaluating(model): body] *)
Definition with_evaluating {A} (body : M A) : M A :=
  w ← get;
  let istrain := ModelUtils.training (net w) in
  finally (set_net (ModelUtils.eval_ (net w));; body)
          (w' ← get; when istrain (set_net (ModelUtils.train_ (net w')))).

(** Python's [a % b] on integers. *)
Definition py_mod (a b : Z) : M Z :=
  if b =? 0 then raise ZeroDivisionError else mret (a mod b).

(** [checkpoints_limit = max(1, checkpoints_limit)] *)
Definition clamp_limit (checkpoints_limit : option Z) : option Z :=
  match checkpoints_limit with
  | Some l => Some (Z.max 1 l)
  | None => None
  end.

(** Lines 265-311, the pass before the first epoch of a fresh run. *)
Definition cold_start (a : train_args) (o : oracle) (checkpoint_dir : path)
    (checkpoint_best_path : path) (checkpoints_history : list string)
    : M (list string * (Z * pyfloat)) :=
  with_evaluating (
    emit (EvEvaluateBatch false);;
    emit (EvSummaryWrite false 0);;
    let loss := cold_loss o in
    when (val_dataset a) (emit (EvEvaluateBatch true);; emit (EvSummaryWrite true 0));;
    let checkpoints_history := checkpoints_history ++ ["checkpoint_0.pth"] in
    let checkpoint_path := join checkpoint_dir (List.last checkpoints_history "") in
    save_checkpoint checkpoint_path 0 loss (checkpoint_extra_modules a)
                    (Some checkpoint_last_name) (amp a);;
    shutil_copy2 checkpoint_path checkpoint_best_path;;
    mret (checkpoints_history, (0, loss))).

(** Lines 170-311: everything before the loop. *)
Definition bootstrap (a : train_args) (o : oracle) : M locals :=
  let checkpoints_limit := clamp_limit (checkpoints_limit a) in
  '(epoch_offset, loss) ←
    match checkpoint_path a with
    | Some p => load_checkpoint p true true (checkpoint_extra_modules a) false (amp a) true
    | None => mret (0, FFin (-1))
    end;
  let training_dir := default ["."; "training"] (training_dir a) in
  f ← get_fs;
  when (negb (path_exists f training_dir)) (os_makedirs training_dir);;
  let checkpoint_dir := join training_dir "ckpts" in
  let summary_dir := join training_dir "summary" in
  match checkpoint_path a with
  | None =>
      f ← get_fs;
      when (path_exists f checkpoint_dir) (shutil_rmtree checkpoint_dir);;
      f ← get_fs;
      when (path_exists f summary_dir) (shutil_rmtree summary_dir)
  | Some _ => mret tt
  end;;
  f ← get_fs;
  when (negb (path_exists f checkpoint_dir)) (os_makedirs checkpoint_dir);;
  f ← get_fs;
  let checkpoints_history := list_checkpoints f checkpoint_dir in
  let checkpoint_best_path := join checkpoint_dir "checkpoint_best.pth" in
  '(checkpoints_history, checkpoint_path) ←
    match checkpoints_limit with
    | Some lim => meet_limit lim checkpoint_dir checkpoints_history (checkpoint_path a)
    | None => mret (checkpoints_history, checkpoint_path a)
    end;
  f ← get_fs;
  when (negb (path_exists f summary_dir)) (os_makedirs summary_dir);;
  emit (EvSummaryWriter false);;
  when (val_dataset a) (emit (EvSummaryWriter true));;
  '(checkpoints_history, checkpoint_best_data) ←
    match checkpoint_path with
    | Some p =>
        f ← get_fs;
        if path_exists f checkpoint_best_path then
          best ← load_checkpoint checkpoint_best_path false false None false false false;
          mret (checkpoints_history, best)
        else
          shutil_copy2 p checkpoint_best_path;;
          mret (checkpoints_history, (epoch_offset, loss))
    | None => cold_start a o checkpoint_dir checkpoint_best_path checkpoints_history
    end;
  mret (mkLocals epoch_offset checkpoints_limit checkpoint_dir checkpoints_history
                 checkpoint_best_data).

(** Lines 317-409: one turn of the loop.  [epoch] is the value the [for]
    statement binds; the body works with [epoch + 1]. *)
Definition train_epoch (a : train_args) (o : oracle) (epoch : Z) (st : locals) : M locals :=
  w ← get;
  set_net (ModelUtils.train_ (net w));;
  let epoch := epoch + 1 in
  let ob := observe o epoch in
  emit (EvTrainEpoch epoch);;
  set_model_state (ob_model ob);;
  set_optimizer_state (ob_optimizer ob);;
  set_rng (ob_rng ob);;
  let loss := ob_loss ob in
  r ← py_mod epoch (epochs_per_summary a);
  when (r =? 0) (emit (EvSummaryWrite false epoch));;
  r ← py_mod epoch (epochs_per_checkpoint a);
  '(checkpoints_history, checkpoint_best_data) ←
    (if r =? 0 then
       checkpoints_history ← rotate (limit st) (checkpoint_dir st) (checkpoints_history st) epoch;
       match last checkpoints_history with
       | None => raise IndexError
       | Some newest =>
           let checkpoint_path := join (checkpoint_dir st) newest in
           save_checkpoint checkpoint_path epoch loss (checkpoint_extra_modules a)
                           (Some checkpoint_last_name) (amp a);;
           if negb (val_dataset a) && float_ge (checkpoint_best_data st).2 loss then
             shutil_copy2 checkpoint_path (join (checkpoint_dir st) "checkpoint_best.pth");;
             mret (checkpoints_history, (epoch, loss))
           else mret (checkpoints_history, checkpoint_best_data st)
       end
     else mret (checkpoints_history st, checkpoint_best_data st));
  checkpoint_best_data ←
    (if val_dataset a then
       r ← py_mod epoch (epochs_per_summary a);
       if r =? 0 then
         emit (EvEvaluate epoch);;
         emit (EvSummaryWrite true epoch);;
         let loss := ob_val_loss ob in
         if float_ge checkpoint_best_data.2 loss then
           save_checkpoint (join (checkpoint_dir st) "checkpoint_best.pth") epoch loss
                           (checkpoint_extra_modules a) None (amp a);;
           mret (epoch, loss)
         else mret checkpoint_best_data
       else mret checkpoint_best_data
     else mret checkpoint_best_data);
  mret (mkLocals (epoch_offset st) (limit st) (checkpoint_dir st) checkpoints_history
                 checkpoint_best_data).

Fixpoint epoch_loop (a : train_args) (o : oracle) (n : nat) (epoch : Z) (st : locals)
    : M locals :=
  match n with
  | O => mret st
  | S n' => st' ← train_epoch a o epoch st; epoch_loop a o n' (epoch + 1) st'
  end.

(** [for epoch in range(epoch_offset, epochs)] *)
Definition train (a : train_args) (o : oracle) : M locals :=
  st ← bootstrap a o;
  epoch_loop a o (Z.to_nat (epochs a - epoch_offset st)) (epoch_offset st) st.

End Train.

(** * Definitions the statements use *)

Module Spec.

Import Train.

(** [candidates best cur] in the words of the specification: the pointer
    is replaced iff the candidate's loss is [<=] the current one. *)
Definition promoteBest (candidate current : Z * pyfloat) : Z * pyfloat :=
  if float_le candidate.2 current.2 then candidate else current.

(** A sequence of attempts, oldest first. *)
Definition promote_all (current : Z * pyfloat) (candidates : list (Z * pyfloat))
    : Z * pyfloat :=
  foldl (fun cur cand => promoteBest cand cur) current candidates.

(** The promotion attempts of the turn of the loop that starts with
    [epoch]: the training loss when a checkpoint is due and no validation
    set is given, the validation loss when one is given and a summary is
    due. *)
Definition attempts (a : train_args) (o : oracle) (epoch : Z) : list (Z * pyfloat) :=
  let e := epoch + 1 in
  (if ((e mod epochs_per_checkpoint a) =? 0) && negb (val_dataset a)
   then [(e, ob_loss (observe o e))] else [])
  ++ (if val_dataset a && ((e mod epochs_per_summary a) =? 0)
      then [(e, ob_val_loss (observe o e))] else []).

(** The attempts of [n] turns from [epoch] on. *)
Fixpoint attempts_from (a : train_args) (o : oracle) (n : nat) (epoch : Z)
    : list (Z * pyfloat) :=
  match n with
  | O => []
  | S n' => attempts a o epoch ++ attempts_from a o n' (epoch + 1)
  end.

(** The last [L] entries of a list. *)
Definition most_recent {A} (L : Z) (l : list A) : list A :=
  drop (length l - Z.to_nat L) l.

(** The order [sorted] puts numbered names in. *)
Definition key_le (x y : Z * string) : Prop := x.1 <= y.1.

(** Every entry but the topmost ones lies in a directory. *)
Definition wf_fs (f : filesystem) : Prop :=
  forall p, is_Some (f !! p) -> dirname p <> [] -> f !! dirname p = Some Dir.

(** Step numbers ascend along a history; names without a number do not count. *)
Definition steps_ascend (x y : string) : Prop :=
  forall nx ny, checkpoint_regex_match x = Some nx -> checkpoint_regex_match y = Some ny ->
                nx <= ny.

(** A name paired with the number the pattern reads in it. *)
Definition consistent (kx : Z * string) : Prop :=
  checkpoint_regex_match kx.2 = Some kx.1.


(** A one-element numeric container, and the one element. *)
Definition single_element (v : ModelUtils.value) : option number :=
  match v with
  | ModelUtils.VNdArray shape [x] | ModelUtils.VTensor _ shape [x] =>
      if bool_decide (ModelUtils.numel shape = 1%nat) then Some x else None
  | _ => None
  end.

(** The events only the pass before the first epoch makes. *)
Definition cold_start_event (e : event) : bool :=
  match e with
  | EvEvaluateBatch _ => true
  | EvTorchSave _ _ => true
  | EvSummaryWrite _ _ => true
  | _ => false
  end.

(** What a run returned, if it did not raise. *)
Definition returned {A} (r : result A) : option A :=
  match r with
  | Ok a => Some a
  | Raise _ => None
  end.

(** A computation that, from every world, ends in a world related to it. *)
Definition respects {A} (R : world -> world -> Prop) (m : M A) : Prop :=
  forall w, R w (m w).2.

(** The generators are as they were. *)
Definition same_rng (w w' : world) : Prop := rng w' = rng w.

(** Between the two worlds no event of the first pass was made. *)
Definition no_cold_start (w w' : world) : Prop :=
  exists new, events w' = new ++ events w
              /\ forallb (fun e => negb (cold_start_event e)) new = true.

Definition with_limit (a : train_args) (l : option Z) : train_args :=
  mkArgs (epochs a) (val_dataset a) (training_dir a) (checkpoint_path a)
         (epochs_per_summary a) (epochs_per_checkpoint a) (amp a) l
         (checkpoint_extra_modules a).

(** What a checkpoint is made from is as it was. *)
Definition same_inputs (w w' : world) : Prop :=
  cuda_available w' = cuda_available w /\ rng w' = rng w
  /\ model_state w' = model_state w /\ optimizer_state w' = optimizer_state w
  /\ amp_state w' = amp_state w /\ ext_state w' = ext_state w.

(** The disk is as it was, and went through no state in between. *)
Definition same_disk (w w' : world) : Prop := fs w' = fs w /\ fs_seen w' = fs_seen w.



(** A name written in ASCII.  Strings are sequences of bytes here; on
    such names the bytes are the characters Python sees, and [\d] and
    [int] know no digits but [0] to [9]. *)
Definition ascii_only (name : string) : Prop :=
  Forall (fun c => (nat_of_ascii c < 128)%nat) (String.list_ascii_of_string name).

(** The longest name a directory entry can have, in bytes. *)
Definition name_max : nat := 255.

(** The training directory, as far as it is there, is made of
    directories, so that [os.makedirs] and [shutil.rmtree] find nothing
    in their way. *)
Definition plain_dirs (f : filesystem) (training_dir : path) : Prop :=
  forall q, q `prefix_of` join training_dir "ckpts" \/ q `prefix_of` join training_dir "summary" ->
            f !! q = None \/ f !! q = Some Dir.




End Spec.

(** * Concrete runs *)

Module Scenario.

Import Train.

Definition ckpts : path := ["."; "training"; "ckpts"].

(** A checkpoint as an earlier run left it. *)
Definition saved (step : Z) (loss : Q) (seed : N) : checkpoint_dict :=
  mkCheckpoint (mkRng seed seed seed None) 0 0 ∅ None step (FFin loss).

Definition fresh (f : filesystem) : world :=
  mkWorld f [] false (mkGenerators 0 0 0 0) (ModelUtils.mkNet true 0) 0 0 0 ∅ [].

(** An oracle whose epochs have the given training losses. *)
Definition losses (cold : pyfloat) (loss : Z -> pyfloat) : oracle :=
  mkOracle cold (fun e => mkObs (loss e) FNaN (Z.to_N e) (Z.to_N e) (mkGenerators 0 0 0 0)).

(** The directory an earlier run without a limit left after four epochs. *)
Definition four_epochs : filesystem :=
  list_to_map
    [ (["."], Dir); (["."; "training"], Dir); (ckpts, Dir);
      (join ckpts "checkpoint_1.pth", File true (Pickled (saved 1 4 11)));
      (join ckpts "checkpoint_2.pth", File true (Pickled (saved 2 3 12)));
      (join ckpts "checkpoint_3.pth", File true (Pickled (saved 3 2 13)));
      (join ckpts "checkpoint_4.pth", File true (Pickled (saved 4 1 14)));
      (join ckpts "checkpoint_last.pth", Symlink "checkpoint_4.pth");
      (join ckpts "checkpoint_best.pth", File true (Pickled (saved 4 1 14))) ].

(** Resuming from the first of them, now with a limit of two. *)
Definition resume_first : train_args :=
  mkArgs 2 false None (Some (join ckpts "checkpoint_1.pth")) 1 1 false (Some 2) None.

(** The scenario of the specification: three epochs from scratch, limit
    two, no validation set, training losses 1.0, 0.5, 0.8. *)
Definition three_epochs : train_args :=
  mkArgs 3 false None None 1 1 false (Some 2) None.

Definition three_losses : oracle :=
  losses (FFin 2) (fun e => if e =? 1 then FFin 1 else if e =? 2 then FFin (1 # 2)
                            else FFin (8 # 10)).

(** A directory with one checkpoint and the alias on it. *)
Definition one_checkpoint : filesystem :=
  list_to_map
    [ (ckpts, Dir);
      (join ckpts "checkpoint_0.pth", File true (Pickled (saved 0 4 10)));
      (join ckpts "checkpoint_last.pth", Symlink "checkpoint_0.pth") ].


(** The locals after the first pass over [one_checkpoint]. *)
Definition after_first_pass : locals :=
  mkLocals 0 (Some 2) ckpts ["checkpoint_0.pth"] (0, FFin 4).

End Scenario.

(** * model.py and train.py: forward steps *)

Module Forward.

Import ModelUtils.

(** The objects a step function handles: [None], numbers, strings,
    tensors, lists, tuples, dicts with string keys, and instances of
    [ForwardResult] with their three attributes. *)
Inductive pyobj :=
  | PNone
  | PNum (n : number)
  | PStr (s : string)
  | PTensor (requires_grad : bool) (shape : list nat) (data : list number)
  | PList (elems : list pyobj)
  | PTuple (elems : list pyobj)
  | PDict (items : list (string * pyobj))
  | PForwardResult (outputs targets loss : pyobj).

Inductive error :=
  | TypeError
  | AttributeError
  | ScalarError                (* [.item()] of a tensor with more than one element *)
  | Thrown (id : nat).         (* whatever a callback of the user raises *)

Inductive res (A : Type) :=
  | Returns (a : A)
  | Raises (e : error).
Arguments Returns {A} a.
Arguments Raises {A} e.

#[global] Instance res_ret : MRet res := @Returns.
#[global] Instance res_bind : MBind res := fun A B k m =>
  match m with
  | Returns a => k a
  | Raises e => Raises e
  end.

(** [d.get(key)] on the items of a dict. *)
Fixpoint get (key : string) (items : list (string * pyobj)) : option pyobj :=
  match items with
  | [] => None
  | (k, v) :: rest => if decide (k = key) then Some v else get key rest
  end.

(** ** [ForwardResult] *)

(** [ForwardResult] called with positional arguments: [outputs] is required, [targets] and [loss]
    default to [None], a fourth argument is one too many. *)
Definition ForwardResult_args (args : list pyobj) : res pyobj :=
  match args with
  | [outputs] => Returns (PForwardResult outputs PNone PNone)
  | [outputs; targets] => Returns (PForwardResult outputs targets PNone)
  | [outputs; targets; loss] => Returns (PForwardResult outputs targets loss)
  | _ => Raises TypeError
  end.

(** [ForwardResult] called with keyword arguments: only the three names are
    accepted and [outputs] must be among them. *)
Definition ForwardResult_kwargs (kwargs : list (string * pyobj)) : res pyobj :=
  if forallb (fun kv => bool_decide (kv.1 ∈ ["outputs"; "targets"; "loss"])) kwargs then
    match get "outputs" kwargs with
    | Some outputs =>
        Returns (PForwardResult outputs (default PNone (get "targets" kwargs))
                                (default PNone (get "loss" kwargs)))
    | None => Raises TypeError
    end
  else Raises TypeError.

(** ** [_ForwardStepWrapper.__call__] *)

Definition ForwardStepWrapper {Args} (func : Args -> res pyobj) (args : Args) : res pyobj :=
  r ← func args;
  match r with
  | PDict items => ForwardResult_kwargs items
  | PTuple elems => ForwardResult_args elems
  | _ => ForwardResult_args [r]
  end.

(** ** [forward_step] *)

(** The rows of a tensor of shape [d :: rest], in order. *)
Definition rows (rg : bool) (d : nat) (rest : list nat) (data : list number) : list pyobj :=
  let k := numel rest in
  map (fun i => PTensor rg rest (take k (drop (i * k) data))) (seq 0 d).

(** [*x] in a call: the elements [x] yields when iterated. *)
Definition star (x : pyobj) : res (list pyobj) :=
  match x with
  | PTuple elems | PList elems => Returns elems
  | PDict items => Returns (map (fun kv => PStr kv.1) items)
  | PStr s => Returns (map (fun c => PStr (String c EmptyString)) (String.list_ascii_of_string s))
  | PTensor rg (d :: rest) data => Returns (rows rg d rest data)
  | PTensor _ [] _ | PNone | PNum _ | PForwardResult _ _ _ => Raises TypeError
  end.

(** A callable of the user, called with positional arguments. *)
Definition callable := list pyobj -> res pyobj.

Record forward_step_args := mkForwardStep {
  inputs_getter : callable;
  targets_getter : option callable;
  criterion : option callable;
  inputs_preprocess : option callable;
  outputs_postprocess : option callable;
}.

(** The inner [step_func(model, batch)]. *)
Definition step_func (fa : forward_step_args) (mb : callable * pyobj) : res pyobj :=
  let '(model, batch) := mb in
  inputs ← inputs_getter fa [batch];
  inputs ← match inputs_preprocess fa with
           | Some inputs_preprocess => inputs_preprocess [inputs]
           | None => Returns inputs
           end;
  outputs ← match inputs with
            | PTuple elems => model elems
            | _ => model [inputs]
            end;
  targets ← match targets_getter fa with
            | Some targets_getter => targets_getter [batch]
            | None => Returns PNone
            end;
  loss ← match criterion fa with
         | Some criterion =>
             match targets with
             | PNone =>
                 match inputs with
                 | PTuple _ => args ← star outputs; criterion args
                 | _ => criterion [outputs]
                 end
             | _ => criterion [outputs; targets]
             end
         | None => Returns PNone
         end;
  outputs ← match outputs_postprocess fa with
            | Some outputs_postprocess => outputs_postprocess [outputs]
            | None => Returns outputs
            end;
  Returns (PForwardResult outputs targets loss).

(** [forward_step(...)] is the wrapped inner function. *)
Definition forward_step (fa : forward_step_args) : callable * pyobj -> res pyobj :=
  ForwardStepWrapper (step_func fa).

(** ** train.py: [_TrainStep] and [default_calc_metrics] *)

(** [obj.loss] *)
Definition attr_loss (obj : pyobj) : res pyobj :=
  match obj with
  | PForwardResult _ _ loss => Returns loss
  | _ => Raises AttributeError
  end.

(** [_TrainStep.__call__]: the result of the step is kept in
    [_last_result], then its [loss] is returned.  The pair is the value
    of the call and [_last_result] after it. *)
Definition TrainStep {Args} (step_func : Args -> res pyobj) (last_result : pyobj) (args : Args)
    : res pyobj * pyobj :=
  match step_func args with
  | Returns r => (attr_loss r, r)
  | Raises e => (Raises e, last_result)
  end.

(** [x.item()]: only tensors have it here, and only a tensor of one
    element gives a number. *)
Definition item_of (x : pyobj) : res number :=
  match x with
  | PTensor _ shape data =>
      if decide (numel shape = 1%nat) then Returns (item data) else Raises ScalarError
  | _ => Raises AttributeError
  end.

(** [default_calc_metrics(model, batch, result)] *)
Definition default_calc_metrics (result : pyobj) : res value :=
  loss ← attr_loss result;
  n ← item_of loss;
  Returns (VDict [("loss", VNum n)]).

(** [_CalcMetricsWrapper.__call__] *)
Definition CalcMetricsWrapper {Args} (func : Args -> res value) (args : Args) : res value :=
  metrics ← func args;
  Returns (normalize metrics).

End Forward.

(** * Comparisons of floats *)

Section Floats.

Lemma float_ge_le (a b : pyfloat) : float_ge a b = float_le b a.
Proof. by destruct a, b. Qed.

Lemma float_gt_not_le (a b : pyfloat) :
  is_nan a = false -> is_nan b = false -> float_gt a b = negb (float_le a b).
Proof. by destruct a, b. Qed.

Lemma float_le_refl (a : pyfloat) : is_nan a = false -> float_le a a = true.
Proof.
  destruct a; simpl; try done.
  intros _. apply Qle_bool_iff, Qle_refl.
Qed.

Lemma float_le_trans (a b c : pyfloat) :
  float_le a b = true -> float_le b c = true -> float_le a c = true.
Proof.
  destruct a, b, c; simpl; try done.
  rewrite !Qle_bool_iff. apply Qle_trans.
Qed.

Lemma float_le_not_nan (a b : pyfloat) :
  float_le a b = true -> is_nan a = false /\ is_nan b = false.
Proof. by destruct a, b. Qed.

Lemma float_le_not_gt (a b : pyfloat) : float_le a b = true -> float_gt a b = false.
Proof.
  destruct a, b; simpl; try done.
  by intros ->.
Qed.

Lemma float_gt_irrefl (a : pyfloat) : float_gt a a = false.
Proof.
  destruct a; simpl; try done.
  apply negb_false_iff, Qle_bool_iff, Qle_refl.
Qed.

End Floats.

(** * model.py: facts *)

Section Normalize.

Import ModelUtils.

(** Induction over values that reaches the elements of containers. *)
Lemma value_rect_nested (P : value -> Prop)
    (Hdict : forall items, Forall (fun kv => P kv.2) items -> P (VDict items))
    (Hlist : forall elems, Forall P elems -> P (VList elems))
    (Harr : forall shape data, P (VNdArray shape data))
    (Hten : forall rg shape data, P (VTensor rg shape data))
    (Hiter : forall kind elems, Forall P elems -> P (VIter kind elems))
    (Hnum : forall n, P (VNum n))
    (Hnone : P VNone)
    (Hobj : forall id, P (VObject id)) :
  forall v, P v.
Proof.
  fix IH 1. intros [items|elems|shape data|rg shape data|kind elems|n| |id].
  - apply Hdict. induction items as [|[k v] items IHitems]; constructor; [apply IH | apply IHitems].
  - apply Hlist. induction elems as [|v elems IHelems]; constructor; [apply IH | apply IHelems].
  - apply Harr.
  - apply Hten.
  - apply Hiter. induction elems as [|v elems IHelems]; constructor; [apply IH | apply IHelems].
  - apply Hnum.
  - apply Hnone.
  - apply Hobj.
Qed.

Lemma squeeze_shape_nil (shape : list nat) :
  squeeze_shape shape = [] <-> Forall (fun d => d = 1%nat) shape.
Proof.
  unfold squeeze_shape. induction shape as [|d shape IH]; simpl.
  - split; [constructor | done].
  - rewrite filter_cons. destruct (decide (d ≠ 1%nat)) as [Hd|Hd].
    + split; [done | inversion 1; subst; done].
    + apply dec_stable in Hd. rewrite IH. split.
      * by constructor.
      * by inversion 1.
Qed.

Lemma numel_one (shape : list nat) :
  numel shape = 1%nat <-> Forall (fun d => d = 1%nat) shape.
Proof.
  unfold numel. induction shape as [|d shape IH]; simpl.
  - split; [constructor | done].
  - split.
    + intros H. apply Nat.eq_mul_1 in H as [-> H]. constructor; [done | by apply IH].
    + inversion 1; subst. apply IH in H3. rewrite H3. done.
Qed.

Lemma normalize_tensor_single (rg : bool) (shape : list nat) (x : number) :
  numel shape = 1%nat -> normalize (VTensor rg shape [x]) = VNum x.
Proof.
  intros H. apply numel_one, squeeze_shape_nil in H.
  unfold normalize. simpl. by rewrite H.
Qed.

Lemma normalize_tensor_multi (rg : bool) (shape : list nat) (data : list number) :
  numel shape ≠ 1%nat -> normalize (VTensor rg shape data) = VTensor false shape data.
Proof.
  intros H. unfold normalize. simpl.
  destruct (squeeze_shape shape) eqn:E; [|done].
  by apply squeeze_shape_nil, numel_one in E.
Qed.

Lemma normalize_item_map_idem (elems : list value) :
  Forall (fun v => normalize_item (normalize_item v) = normalize_item v) elems ->
  map normalize_item (map normalize_item elems) = map normalize_item elems.
Proof.
  induction 1 as [|v elems Hv _ IH]; simpl; [done|]. by rewrite Hv, IH.
Qed.

(** C4, as the claim has it, fails: a NumPy array of one element is a
    one-element numeric container and comes back as the array it was. *)
Lemma normalize_keeps_one_element_array :
  Spec.single_element (VNdArray [1%nat] [NFloat (FFin 5)]) = Some (NFloat (FFin 5))
  /\ normalize (VNdArray [1%nat] [NFloat (FFin 5)]) = VNdArray [1%nat] [NFloat (FFin 5)]
  /\ normalize (VNdArray [1%nat] [NFloat (FFin 5)]) <> VNum (NFloat (FFin 5)).
Proof. repeat split. discriminate. Qed.

(** C4, amended: a tensor of one element (all dimensions 1, or none)
    normalises to the plain number it holds; a tensor of more than one
    element normalises to a detached tensor of the same shape and values;
    an array of any size, one element included, passes through unchanged. *)
Theorem normalize_numeric_container (rg : bool) (shape : list nat) (data : list number) :
  wf_data shape data ->
  (numel shape = 1%nat -> exists x, data = [x] /\ normalize (VTensor rg shape data) = VNum x)
  /\ ((1 < numel shape)%nat -> normalize (VTensor rg shape data) = VTensor false shape data)
  /\ normalize (VNdArray shape data) = VNdArray shape data.
Proof.
  unfold wf_data. intros Hwf. repeat split.
  - intros H1. rewrite H1 in Hwf.
    destruct data as [|x [|y data]]; try discriminate Hwf.
    exists x. split; [done|]. by apply normalize_tensor_single.
  - intros Hn. apply normalize_tensor_multi. lia.
Qed.

Lemma normalize_numeric_container_witness :
  normalize (VTensor true [1%nat; 1%nat] [NInt 7]) = VNum (NInt 7)
  /\ normalize (VTensor true [2%nat] [NInt 7; NInt 8]) = VTensor false [2%nat] [NInt 7; NInt 8].
Proof.
  split.
  - destruct (normalize_numeric_container true [1%nat; 1%nat] [NInt 7] eq_refl) as [H _].
    destruct (H eq_refl) as (x & Hx & Hn). injection Hx as <-. exact Hn.
  - destruct (normalize_numeric_container true [2%nat] [NInt 7; NInt 8] eq_refl) as (_ & H & _).
    apply H. simpl. lia.
Defined.

(** On the values without [str], normalising a normalised value changes
    nothing. *)
Lemma normalize_idempotent (x : value) : normalize (normalize x) = normalize x.
Proof.
  unfold normalize. induction x as [items IH|elems IH|shape data|rg shape data|kind elems IH|n| |id]
    using value_rect_nested; simpl; try done.
  - f_equal. induction IH as [|[k v] items Hv _ IHitems]; simpl in *; [done|].
    by rewrite Hv, IHitems.
  - f_equal. by apply normalize_item_map_idem.
  - destruct (squeeze_shape shape) eqn:E; simpl; [done|]. by rewrite E.
  - f_equal. by apply normalize_item_map_idem.
Qed.

End Normalize.

Section Evaluating.

Import ModelUtils.

(** C9, as the claim has it, fails: the manager restores training mode
    only; when the net came in evaluation mode and the block switches it
    to training mode, it stays in training mode. *)
Lemma evaluating_leaves_block_mode :
  let net := mkNet false 0 in
  let body : block := fun n => (train_ n, Completed) in
  training net = false /\ training (evaluating net body).1 = true.
Proof. done. Qed.

(** C9, amended: whichever way the block ends, a net that was in training
    mode is in training mode afterwards; for a net that was in
    evaluation mode the manager does nothing on the way out, so the flag
    is the one the block left, which is evaluation mode for every block
    that does not switch modes itself.  The outcome of the block is
    passed on. *)
Theorem evaluating_restores_training (net : Net) (body : block) :
  (training net = true -> training (evaluating net body).1 = true)
  /\ (training net = false ->
      training (evaluating net body).1 = training (body (eval_ net)).1)
  /\ (evaluating net body).2 = (body (eval_ net)).2.
Proof.
  unfold evaluating. destruct (body (eval_ net)) as [net' out].
  repeat split; by intros ->.
Qed.

Lemma evaluating_restores_training_witness :
  training (evaluating (mkNet true 3) (fun n => (n, Raised "boom"))).1 = true
  /\ training (evaluating (mkNet false 3) (fun n => (n, Raised "boom"))).1 = false.
Proof.
  split.
  - apply (evaluating_restores_training (mkNet true 3) (fun n => (n, Raised "boom"))).
    reflexivity.
  - destruct (evaluating_restores_training (mkNet false 3) (fun n => (n, Raised "boom")))
      as (_ & H & _).
    rewrite H; reflexivity.
Defined.

End Evaluating.

(** * train.py: running the monad *)

Section Monad.

Import Train.

Lemma bind_ok_inv {A B} (m : M A) (k : A -> M B) (w w' : world) (b : B) :
  (m ≫= k) w = (Ok b, w') ->
  exists a w1, m w = (Ok a, w1) /\ k a w1 = (Ok b, w').
Proof.
  unfold mbind, M_bind, bind. destruct (m w) as [[a|e] w1]; [eauto | done].
Qed.

Lemma bind_run {A B} (m : M A) (k : A -> M B) (w w1 : world) (a : A) :
  m w = (Ok a, w1) -> (m ≫= k) w = k a w1.
Proof. unfold mbind, M_bind, bind. by intros ->. Qed.

Lemma bind_raise {A B} (m : M A) (k : A -> M B) (w w1 : world) (e : exn) :
  m w = (Raise e, w1) -> (m ≫= k) w = (Raise e, w1).
Proof. unfold mbind, M_bind, bind. by intros ->. Qed.

Lemma run_returned {A} (m : M A) (w : world) (a : A) :
  Spec.returned (m w).1 = Some a -> m w = (Ok a, (m w).2).
Proof. destruct (m w) as [[a'|e] w']; simpl; [by intros [= ->] | done]. Qed.

End Monad.

(** Splits a successful run of [m ≫= k] into the run of [m] and the run
    of [k]. *)
Ltac inv_bind H :=
  let a := fresh "a" in
  let w := fresh "w" in
  let Hm := fresh "Hm" in
  apply bind_ok_inv in H as (a & w & Hm & H).

(** Takes a successful run apart along the control flow of the code. *)
Ltac inv_run :=
  repeat match goal with
  | H : Train.raise _ _ = (Train.Ok _, _) |- _ => discriminate H
  | H : mret _ _ = (Train.Ok _, _) |- _ =>
      unfold mret, Train.M_ret, Train.ret in H; injection H as ? ?; subst
  | H : (_ ≫= _) _ = (Train.Ok _, _) |- _ => inv_bind H
  | H : (if ?c then _ else _) _ = (Train.Ok _, _) |- _ => destruct c eqn:?
  | H : (let '(_, _) := ?x in _) _ = (Train.Ok _, _) |- _ => destruct x
  | H : match ?x with _ => _ end _ = (Train.Ok _, _) |- _ => destruct x eqn:?
  end.

(** * train.py: the best pointer *)

Section BestPointer.

Import Train Spec.

Lemma promoteBest_cases (cand cur : Z * pyfloat) :
  (promoteBest cand cur = cand /\ float_le cand.2 cur.2 = true)
  \/ (promoteBest cand cur = cur /\ float_le cand.2 cur.2 = false).
Proof. unfold promoteBest. destruct (float_le cand.2 cur.2); auto. Qed.

Lemma promote_all_never_increases (cur : Z * pyfloat) (cands : list (Z * pyfloat)) :
  float_gt (promote_all cur cands).2 cur.2 = false
  /\ (is_nan cur.2 = false -> float_le (promote_all cur cands).2 cur.2 = true).
Proof.
  revert cur. induction cands as [|cand cands IH]; intros cur; simpl.
  - split; [apply float_gt_irrefl | apply float_le_refl].
  - destruct (promoteBest_cases cand cur) as [[-> Hle]|[-> _]]; [|apply IH].
    destruct (IH cand) as [_ IH2].
    destruct (float_le_not_nan _ _ Hle) as [Hc _].
    specialize (IH2 Hc).
    assert (float_le (promote_all cand cands).2 cur.2 = true) as H
      by (eapply float_le_trans; eauto).
    split; [by apply float_le_not_gt | done].
Qed.

Lemma train_epoch_best (a : train_args) (o : oracle) (epoch : Z) (st st' : locals)
    (w w' : world) :
  train_epoch a o epoch st w = (Ok st', w') ->
  checkpoint_best_data st' = promote_all (checkpoint_best_data st) (attempts a o epoch).
Proof.
  unfold train_epoch, attempts, py_mod, promote_all, promoteBest. intros H.
  inv_run; simpl; rewrite <- ?float_ge_le.
  all: repeat match goal with
       | H : _ && _ = true |- _ => apply andb_true_iff in H as [? ?]
       | H : negb _ = true |- _ => apply negb_true_iff in H
       end; simplify_eq/=.
  all: repeat match goal with H : ?x = _ |- context [?x] => rewrite H end; simpl; try done.
  all: rewrite <- float_ge_le.
  all: by repeat match goal with H : float_ge _ _ = _ |- _ => rewrite H end.
Qed.

Lemma promote_all_app (cur : Z * pyfloat) (l1 l2 : list (Z * pyfloat)) :
  promote_all cur (l1 ++ l2) = promote_all (promote_all cur l1) l2.
Proof. unfold promote_all. apply foldl_app. Qed.

Lemma epoch_loop_best (a : train_args) (o : oracle) (n : nat) (epoch : Z) (st st' : locals)
    (w w' : world) :
  epoch_loop a o n epoch st w = (Ok st', w') ->
  checkpoint_best_data st'
  = promote_all (checkpoint_best_data st) (attempts_from a o n epoch).
Proof.
  revert epoch st w. induction n as [|n IH]; intros epoch st w H; simpl in *.
  - by inv_run.
  - inv_bind H. rewrite promote_all_app.
    erewrite <- train_epoch_best by eassumption. eauto.
Qed.

(** C3: through any number of turns of the loop that end without an
    exception, the best pointer is what the attempts of those turns make
    of it when each candidate replaces the pointer iff its loss is [<=]
    the recorded one (an equal loss replaces it, so the newer checkpoint
    wins a tie); the recorded loss never goes up, and it ends [<=] where
    it began whenever it began as a number. *)
Theorem best_pointer_promotion (a : train_args) (o : oracle) (n : nat) (epoch : Z)
    (st st' : locals) (w w' : world) :
  epoch_loop a o n epoch st w = (Ok st', w') ->
  checkpoint_best_data st'
  = promote_all (checkpoint_best_data st) (attempts_from a o n epoch)
  /\ (forall cand cur,
        promoteBest cand cur = if float_ge cur.2 cand.2 then cand else cur)
  /\ float_gt (checkpoint_best_data st').2 (checkpoint_best_data st).2 = false
  /\ (is_nan (checkpoint_best_data st).2 = false ->
      float_le (checkpoint_best_data st').2 (checkpoint_best_data st).2 = true).
Proof.
  intros H. apply epoch_loop_best in H. rewrite H. split; [done|]. split.
  - intros cand cur. by rewrite float_ge_le.
  - apply promote_all_never_increases.
Qed.

Lemma best_pointer_promotion_witness :
  checkpoint_best_data
    <$> returned (epoch_loop Scenario.three_epochs Scenario.three_losses 3 0
                    Scenario.after_first_pass (Scenario.fresh Scenario.one_checkpoint)).1
  = Some (2, FFin (1 # 2)).
Proof.
  eassert (returned (epoch_loop Scenario.three_epochs Scenario.three_losses 3 0
             Scenario.after_first_pass (Scenario.fresh Scenario.one_checkpoint)).1 = Some _)
    as Hok by (vm_compute; reflexivity).
  destruct (best_pointer_promotion _ _ _ _ _ _ _ _ (run_returned _ _ _ Hok)) as [Hbest _].
  rewrite Hok. cbn [fmap option_fmap option_map]. rewrite Hbest.
  vm_compute. reflexivity.
Defined.

End BestPointer.

(** * train.py: the checkpoint history *)

Section History.

Import Train Spec.

Lemma insert_by_key_perm (x : Z * string) (l : list (Z * string)) :
  insert_by_key x l ≡ₚ x :: l.
Proof.
  induction l as [|y l IH]; simpl; [done|].
  destruct (x.1 <=? y.1); [done|]. rewrite IH. apply Permutation_swap.
Qed.

Lemma sorted_by_key_perm (l : list (Z * string)) : sorted_by_key l ≡ₚ l.
Proof.
  induction l as [|x l IH]; simpl; [done|].
  by rewrite insert_by_key_perm, IH.
Qed.

Lemma insert_by_key_sorted (x : Z * string) (l : list (Z * string)) :
  StronglySorted key_le l -> StronglySorted key_le (insert_by_key x l).
Proof.
  induction l as [|y l IH]; simpl; intros Hs.
  - repeat constructor.
  - apply StronglySorted_cons in Hs as [Hy Hs].
    destruct (Z.leb_spec x.1 y.1) as [Hxy|Hxy].
    + apply StronglySorted_cons. split; [|by apply StronglySorted_cons].
      constructor; [done|].
      eapply Forall_impl; [exact Hy|]. unfold key_le. intros z Hz. simpl in *. lia.
    + apply StronglySorted_cons. split; [|by apply IH].
      rewrite insert_by_key_perm. constructor; [|done]. unfold key_le. lia.
Qed.

Lemma sorted_by_key_sorted (l : list (Z * string)) :
  StronglySorted key_le (sorted_by_key l).
Proof.
  induction l as [|x l IH]; simpl; [constructor|]. by apply insert_by_key_sorted.
Qed.



Lemma numbered_consistent (names : list string) : Forall consistent (numbered names).
Proof.
  apply Forall_forall. intros [m x] Hin. unfold numbered in Hin.
  apply list_elem_of_omap in Hin as (y & _ & Hy).
  unfold consistent. destruct (checkpoint_regex_match y) eqn:E; simplify_eq/=. done.
Qed.


Lemma numbered_names (names : list string) :
  map snd (numbered names) = filter (fun x => is_Some (checkpoint_regex_match x)) names.
Proof.
  induction names as [|x names IH]; [done|].
  unfold numbered in *. simpl.
  destruct (checkpoint_regex_match x) eqn:E; simpl.
  - rewrite filter_cons_True by (rewrite E; eauto). f_equal. apply IH.
  - rewrite filter_cons_False by (rewrite E; by intros [? ?]). apply IH.
Qed.


(** *** The names [os.listdir] gives *)

Lemma NoDup_omap_inj {A B} (g : A -> option B) (l : list A) :
  NoDup l ->
  (forall x y z, x ∈ l -> y ∈ l -> g x = Some z -> g y = Some z -> x = y) ->
  NoDup (omap g l).
Proof.
  induction 1 as [|x l Hx Hl IH]; intros Hinj; simpl; [constructor|].
  assert (NoDup (omap g l)) as IH'.
  { apply IH. intros x' y z Hx' Hy. apply Hinj; by right. }
  destruct (g x) as [z|] eqn:E; [|done].
  constructor; [|done]. intros Hz.
  apply list_elem_of_omap in Hz as (y & Hy & Hgy).
  assert (x = y) as -> by (eapply Hinj; eauto; [left | by right]). done.
Qed.

Lemma join_split (p : path) : p <> [] -> join (dirname p) (basename p) = p.
Proof. intros Hp. unfold join, dirname, basename. symmetry. by apply app_removelast_last. Qed.

Lemma dirname_join (dir : path) (name : string) : dirname (join dir name) = dir.
Proof. apply removelast_last. Qed.

Lemma basename_join (dir : path) (name : string) : basename (join dir name) = name.
Proof. apply last_last. Qed.

Lemma join_inj (dir : path) (x y : string) : join dir x = join dir y -> x = y.
Proof. unfold join. intros H. by apply app_inv_head in H as [= ->]. Qed.

Lemma listdir_elem (f : filesystem) (dir : path) (x : string) :
  x ∈ listdir f dir -> is_Some (f !! join dir x).
Proof.
  unfold listdir. intros H. apply list_elem_of_omap in H as ([p n] & Hin & Hg).
  apply elem_of_map_to_list in Hin.
  destruct p as [|c p]; [done|]. case_decide as Hd; [|done].
  injection Hg as <-. rewrite <- Hd, join_split by done. eauto.
Qed.

Lemma listdir_NoDup (f : filesystem) (dir : path) : NoDup (listdir f dir).
Proof.
  unfold listdir. apply NoDup_omap_inj; [apply NoDup_map_to_list|].
  intros [p n] [p' n'] z Hp Hp' Hg Hg'.
  apply elem_of_map_to_list in Hp, Hp'.
  destruct p as [|c p]; [done|]. destruct p' as [|c' p']; [done|].
  repeat case_decide; try done. simplify_eq.
  assert (c :: p = c' :: p') as Heq.
  { rewrite <- (join_split (c :: p)), <- (join_split (c' :: p')) by done. congruence. }
  rewrite Heq in Hp. congruence.
Qed.

Lemma follow_not_link (n : nat) (f : filesystem) (p : path) :
  (forall t, f !! p <> Some (Symlink t)) -> follow n f p = p.
Proof.
  intros H. destruct n; simpl; destruct (f !! p) as [[]|] eqn:E; try done; by destruct (H target).
Qed.

Lemma isfile_not_dir (f : filesystem) (p : path) : isfile f p = true -> f !! p <> Some Dir.
Proof.
  intros Hf Hd. unfold isfile, stat in Hf.
  rewrite follow_not_link in Hf by (intros t; by rewrite Hd). by rewrite Hd in Hf.
Qed.

(** What the start-up listing is: the names are distinct, each is an entry
    of the directory that [os.remove] accepts, and they stand in the
    order of the numbers the pattern reads in them. *)
Lemma list_checkpoints_spec (f : filesystem) (dir : path) :
  NoDup (list_checkpoints f dir)
  /\ (forall x, x ∈ list_checkpoints f dir ->
        exists n, f !! join dir x = Some n /\ n <> Dir)
  /\ exists ks, list_checkpoints f dir = map snd ks
                /\ Forall consistent ks /\ StronglySorted key_le ks.
Proof.
  set (names := filter (fun ckpt => isfile f (join dir ckpt) = true) (listdir f dir)).
  assert (list_checkpoints f dir = map snd (sorted_by_key (numbered names))) as Hh.
  { unfold list_checkpoints. fold names. by destruct names. }
  assert (list_checkpoints f dir ≡ₚ filter (fun x => is_Some (checkpoint_regex_match x)) names)
    as Hperm.
  { rewrite Hh, <- numbered_names. apply fmap_Permutation, sorted_by_key_perm. }
  split; [|split].
  - rewrite Hperm. apply NoDup_filter, NoDup_filter, listdir_NoDup.
  - intros x Hx. rewrite Hperm in Hx.
    apply list_elem_of_filter in Hx as [_ Hx].
    apply list_elem_of_filter in Hx as [Hfile Hx].
    apply listdir_elem in Hx as [n Hn]. exists n. split; [done|].
    intros ->. by apply isfile_not_dir in Hfile.
  - exists (sorted_by_key (numbered names)). split; [done|]. split.
    + rewrite sorted_by_key_perm. apply numbered_consistent.
    + apply sorted_by_key_sorted.
Qed.

(** *** The loop at start-up *)

Lemma most_recent_all {A} (L : Z) (l : list A) :
  Z.of_nat (length l) <= L -> most_recent L l = l.
Proof. intros H. unfold most_recent. replace (length l - Z.to_nat L)%nat with 0%nat by lia. done. Qed.

Lemma most_recent_cons {A} (L : Z) (x : A) (l : list A) :
  0 <= L < Z.of_nat (length (x :: l)) -> most_recent L (x :: l) = most_recent L l.
Proof.
  intros H. unfold most_recent. simpl in *.
  replace (S (length l) - Z.to_nat L)%nat with (S (length l - Z.to_nat L)) by lia. done.
Qed.

Lemma most_recent_length {A} (L : Z) (l : list A) :
  0 <= L -> Z.of_nat (length (most_recent L l)) <= L.
Proof. intros H. unfold most_recent. rewrite length_drop. lia. Qed.

Lemma meet_limit_compliant (lim : Z) (dir : path) (h : list string) (cp : option path)
    (w : world) :
  Z.of_nat (length h) <= lim -> meet_limit lim dir h cp w = (Ok (h, cp), w).
Proof.
  intros H.
  assert ((Z.of_nat (length h) >? lim) = false) as E
    by (rewrite Z.gtb_ltb; apply Z.ltb_ge; lia).
  destruct h; cbn [meet_limit]; by rewrite E.
Qed.

Lemma os_remove_run (p : path) (w : world) (n : node) :
  fs w !! p = Some n -> n <> Dir ->
  exists w', os_remove p w = (Ok tt, w') /\ fs w' = delete p (fs w).
Proof.
  intros Hn Hd. unfold os_remove, mbind, M_bind, bind, get_fs. simpl. rewrite Hn.
  destruct n; try done; eauto.
Qed.


(** *** The turn of the loop *)





End History.

(** * train.py: writing a checkpoint *)

Section Save.

Import Train Spec.

Lemma path_exists_lookup (f : filesystem) (p : path) :
  path_exists f p = true -> is_Some (f !! p).
Proof.
  unfold path_exists, stat. intros H.
  destruct (f !! p) eqn:E; [eauto|].
  rewrite follow_not_link in H by (intros t; by rewrite E). by rewrite E in H.
Qed.

Lemma path_exists_absent (f : filesystem) (p : path) :
  f !! p = None -> path_exists f p = false.
Proof.
  intros E. destruct (path_exists f p) eqn:H; [|done].
  apply path_exists_lookup in H as [? ?]. congruence.
Qed.









End Save.

(** * train.py: what a computation leaves alone *)

Section Frame.

Import Train Spec.

Context (R : world -> world -> Prop).
Context (R_refl : forall w, R w w).
Context (R_trans : forall w1 w2 w3, R w1 w2 -> R w2 w3 -> R w1 w3).

Lemma respects_ret {A} (a : A) : respects R (mret a : M A).
Proof. intros w. apply R_refl. Qed.

Lemma respects_raise {A} (e : exn) : respects R (raise e : M A).
Proof. intros w. apply R_refl. Qed.

Lemma respects_get : respects R get.
Proof. intros w. apply R_refl. Qed.

Lemma respects_get_fs : respects R get_fs.
Proof. intros w. apply R_refl. Qed.

(** The continuation need only behave on the results [m] can give. *)
Lemma respects_bind_ok {A B} (m : M A) (k : A -> M B) :
  respects R m ->
  (forall a w w', m w = (Ok a, w') -> R w' (k a w').2) ->
  respects R (m ≫= k).
Proof.
  intros Hm Hk w. specialize (Hm w). unfold mbind, M_bind, bind.
  destruct (m w) as [[a|e] w'] eqn:E; simpl in *; [|done].
  eapply R_trans; [exact Hm|]. by eapply Hk.
Qed.

Lemma respects_bind {A B} (m : M A) (k : A -> M B) :
  respects R m -> (forall a, respects R (k a)) -> respects R (m ≫= k).
Proof. intros Hm Hk. apply respects_bind_ok; [done|]. intros a w w' _. apply Hk. Qed.

Lemma respects_when (b : bool) (m : M unit) : respects R m -> respects R (when b m).
Proof. destruct b; [done|]. intros _. apply respects_ret. Qed.

Lemma respects_for_each {A} (l : list A) (body : A -> M unit) :
  (forall x, respects R (body x)) -> respects R (for_each l body).
Proof.
  intros Hb. induction l as [|x l IH]; simpl; [apply respects_ret|].
  apply respects_bind; [apply Hb | done].
Qed.

Lemma respects_finally {A} (m : M A) (h : M unit) :
  respects R m -> respects R h -> respects R (finally m h).
Proof.
  intros Hm Hh w. unfold finally. specialize (Hm w).
  destruct (m w) as [r w'] eqn:E. specialize (Hh w').
  destruct (h w') as [[[]|e] w'']; simpl in *; eauto.
Qed.

End Frame.

(** Walks through a computation along its binds and branches; [prim]
    settles the primitive steps. *)
Ltac frame Hr Ht prim :=
  repeat first
    [ solve [prim]
    | progress cbv zeta
    | apply (respects_ret _ Hr)
    | apply (respects_raise _ Hr)
    | apply (respects_get _ Hr)
    | apply (respects_get_fs _ Hr)
    | apply (respects_when _ Hr)
    | apply (respects_for_each _ Hr Ht)
    | apply (respects_finally _ Ht)
    | apply (respects_bind _ Ht)
    | match goal with
      | |- forall _, _ => intro
      | |- Spec.respects _ (match ?x with _ => _ end) => destruct x
      | |- Spec.respects _ (if ?x then _ else _) => destruct x
      end ].

(** * train.py: the generators *)

Section Generators.

Import Train Spec.

Lemma same_rng_refl (w : world) : same_rng w w.
Proof. done. Qed.

Lemma same_rng_trans (w1 w2 w3 : world) : same_rng w1 w2 -> same_rng w2 w3 -> same_rng w1 w3.
Proof. unfold same_rng. congruence. Qed.

Ltac rng_prim := intros ?; reflexivity.
Ltac rng_frame := frame same_rng_refl same_rng_trans ltac:(first [rng_prim | eassumption]).

Lemma torch_load_rng (p : path) : respects same_rng (torch_load p).
Proof. unfold torch_load. rng_frame. Qed.

Lemma torch_save_rng (d : checkpoint_dict) (p : path) : respects same_rng (torch_save d p).
Proof. unfold torch_save. rng_frame. Qed.

Lemma os_remove_rng (p : path) : respects same_rng (os_remove p).
Proof. unfold os_remove. rng_frame. Qed.

Lemma os_symlink_rng (src : string) (dst : path) : respects same_rng (os_symlink src dst).
Proof. unfold os_symlink. rng_frame. Qed.

Lemma shutil_copy2_rng (src dst : path) : respects same_rng (shutil_copy2 src dst).
Proof. unfold shutil_copy2. rng_frame. Qed.

Lemma os_makedirs_rng (dir : path) : respects same_rng (os_makedirs dir).
Proof. unfold os_makedirs. rng_frame. Qed.

Lemma shutil_rmtree_rng (dir : path) : respects same_rng (shutil_rmtree dir).
Proof. unfold shutil_rmtree. rng_frame. Qed.

Ltac rng_files :=
  frame same_rng_refl same_rng_trans
    ltac:(first [ apply torch_load_rng | apply torch_save_rng | apply os_remove_rng
                | apply os_symlink_rng | apply shutil_copy2_rng | apply os_makedirs_rng
                | apply shutil_rmtree_rng | rng_prim ]).

Lemma save_checkpoint_rng (p : path) (step : Z) (loss : pyfloat) (ext : option modules)
    (name : option string) (amp : bool) :
  respects same_rng (save_checkpoint p step loss ext name amp).
Proof. unfold save_checkpoint, os_unlink. rng_files. Qed.

(** Without [load_rnd_state] no step of [load_checkpoint] touches a
    generator, whatever else it is asked to restore and however it ends. *)
Lemma load_checkpoint_rng (p : path) (model optimizer : bool) (ext : option modules)
    (strict amp : bool) :
  respects same_rng (load_checkpoint p model optimizer ext strict amp false).
Proof.
  unfold load_checkpoint, model_load_state_dict, optimizer_load_state_dict,
    amp_load_state_dict, module_load_state_dict.
  rng_files.
Qed.

Lemma respects_run {A} (R : world -> world -> Prop) (m : M A) (w w' : world) (r : result A) :
  respects R m -> m w = (r, w') -> R w w'.
Proof. intros Hm H. specialize (Hm w). by rewrite H in Hm. Qed.

Lemma meet_limit_rng (lim : Z) (dir : path) (h : list string) (cp : option path) :
  respects same_rng (meet_limit lim dir h cp).
Proof.
  revert cp. induction h as [|x h IH]; intros cp; cbn [meet_limit]; rng_files.
  apply IH.
Qed.

Lemma cold_start_rng (a : train_args) (o : oracle) (dir best : path) (h : list string) :
  respects same_rng (cold_start a o dir best h).
Proof.
  unfold cold_start, with_evaluating.
  frame same_rng_refl same_rng_trans
    ltac:(first [ apply save_checkpoint_rng | apply shutil_copy2_rng | rng_prim ]).
Qed.

Lemma torch_load_inv (p : path) (w w' : world) (d : checkpoint_dict) :
  torch_load p w = (Ok d, w') -> stat (fs w) p = Some (File true (Pickled d)) /\ w' = w.
Proof.
  unfold torch_load. intros H. inv_bind H. injection Hm as <- <-.
  destruct (stat (fs w) p) as [[[] []| |]|]; try discriminate H.
  by injection H as <- <-.
Qed.

(** A successful [load_checkpoint] read a whole pickle, returns its step
    and loss, and leaves the generators restored from it or untouched. *)
Lemma load_checkpoint_inv (p : path) (model optimizer : bool) (ext : option modules)
    (strict amp lrs : bool) (w w' : world) (r : Z * pyfloat) :
  load_checkpoint p model optimizer ext strict amp lrs w = (Ok r, w') ->
  exists d, stat (fs w) p = Some (File true (Pickled d))
            /\ r = (ck_step d, ck_loss d)
            /\ rng w' = if lrs then rng (restore_rng_state (ck_rng_state d) w).2 else rng w.
Proof.
  unfold load_checkpoint. intros H.
  apply bind_ok_inv in H as (f & w0 & Hget & H). injection Hget as <- <-.
  destruct (negb (isfile (fs w) p)); [discriminate H|].
  apply bind_ok_inv in H as (d & w0 & Hload & H).
  apply torch_load_inv in Hload as [Hstat ->].
  exists d. split; [done|].
  apply bind_ok_inv in H as ([] & w1 & Hrestore & H).
  assert (rng w1 = if lrs then rng (restore_rng_state (ck_rng_state d) w).2 else rng w) as Hw1.
  { destruct lrs; simpl in Hrestore.
    - by rewrite Hrestore.
    - by injection Hrestore as <-. }
  match type of H with
  | ?m _ = _ => assert (respects same_rng m) as Hrest
  end.
  { unfold model_load_state_dict, optimizer_load_state_dict,
      amp_load_state_dict, module_load_state_dict. rng_files. }
  pose proof (respects_run _ _ _ _ _ Hrest H) as Hrng. unfold same_rng in Hrng.
  split; [|congruence].
  clear -H.
  repeat (apply bind_ok_inv in H as ([] & ? & _ & H)).
  by injection H as <- _.
Qed.

(** What [bootstrap] gives back when it resumes: the step of the
    checkpoint it loaded, and generators as that checkpoint has them. *)
Lemma bootstrap_resume_inv (a : train_args) (o : oracle) (p : path) (w w' : world)
    (st : locals) :
  checkpoint_path a = Some p ->
  bootstrap a o w = (Ok st, w') ->
  exists d, stat (fs w) p = Some (File true (Pickled d))
            /\ epoch_offset st = ck_step d
            /\ limit st = clamp_limit (checkpoints_limit a)
            /\ rng w' = rng (restore_rng_state (ck_rng_state d) w).2.
Proof.
  intros Hcp H. unfold bootstrap in H. rewrite Hcp in H.
  apply bind_ok_inv in H as ([eo loss] & w1 & Hload & H).
  apply load_checkpoint_inv in Hload as (d & Hstat & [= -> ->] & Hrng).
  exists d. split; [done|].
  match type of H with
  | ?m _ = _ => assert (respects same_rng m) as Hrest
  end.
  { frame same_rng_refl same_rng_trans
      ltac:(first [ apply load_checkpoint_rng | apply meet_limit_rng | apply cold_start_rng
                  | apply shutil_copy2_rng | apply os_makedirs_rng | apply shutil_rmtree_rng
                  | rng_prim ]). }
  pose proof (respects_run _ _ _ _ _ Hrest H) as Hsame. unfold same_rng in Hsame.
  rewrite Hsame, Hrng. split; [|split; [|done]].
  - clear -H. inv_run; done.
  - clear -H. inv_run; done.
Qed.

(** C10: a read with [load_rnd_state=False] leaves every generator as it
    was, whatever else it restores and however it ends; and after the
    start-up of a resumed run, which reads an existing best checkpoint
    that way, the generators are the ones restored from the checkpoint
    the run resumes from. *)
Theorem best_read_keeps_generators (a : train_args) (o : oracle) (p : path)
    (w w' : world) (st : locals) :
  checkpoint_path a = Some p ->
  bootstrap a o w = (Ok st, w') ->
  (forall q model optimizer ext strict amp w0,
     rng (load_checkpoint q model optimizer ext strict amp false w0).2 = rng w0)
  /\ exists d, stat (fs w) p = Some (File true (Pickled d))
               /\ rng w' = rng (restore_rng_state (ck_rng_state d) w).2.
Proof.
  intros Hcp H. split.
  - intros q model optimizer ext strict amp w0. apply load_checkpoint_rng.
  - destruct (bootstrap_resume_inv _ _ _ _ _ _ Hcp H) as (d & Hstat & _ & _ & Hrng). eauto.
Qed.

Lemma best_read_keeps_generators_witness :
  let run := bootstrap Scenario.resume_first (Scenario.losses (FFin 1) (fun _ => FFin 1))
                       (Scenario.fresh Scenario.four_epochs) in
  checkpoint_best_data <$> returned run.1 = Some (4, FFin 1)
  /\ rng run.2 = mkGenerators 11 11 11 0.
Proof.
  intros run.
  eassert (returned run.1 = Some _) as Hok by (vm_compute; reflexivity).
  destruct (best_read_keeps_generators Scenario.resume_first
              (Scenario.losses (FFin 1) (fun _ => FFin 1))
              (join Scenario.ckpts "checkpoint_1.pth")
              (Scenario.fresh Scenario.four_epochs) _ _ eq_refl
              (run_returned (bootstrap _ _) _ _ Hok)) as (_ & d & Hstat & Hrng).
  split; [rewrite Hok; reflexivity|].
  assert (stat (fs (Scenario.fresh Scenario.four_epochs))
               (join Scenario.ckpts "checkpoint_1.pth")
          = Some (File true (Pickled (Scenario.saved 1 4 11)))) as E
    by (vm_compute; reflexivity).
  rewrite E in Hstat. injection Hstat as <-.
  etransitivity; [exact Hrng|]. vm_compute. reflexivity.
Defined.

End Generators.

(** * train.py: resuming *)

Section Resume.

Import Train Spec.

Lemma no_cold_start_refl (w : world) : no_cold_start w w.
Proof. by exists []. Qed.

Lemma no_cold_start_trans (w1 w2 w3 : world) :
  no_cold_start w1 w2 -> no_cold_start w2 w3 -> no_cold_start w1 w3.
Proof.
  intros (n1 & H1 & Hq1) (n2 & H2 & Hq2). exists (n2 ++ n1). split.
  - by rewrite H2, H1, app_assoc.
  - rewrite forallb_app. by rewrite Hq1, Hq2.
Qed.

Ltac quiet_prim :=
  intros ?; first [ by exists [] | eexists [_]; split; reflexivity ].

Ltac quiet_frame := frame no_cold_start_refl no_cold_start_trans quiet_prim.

Lemma torch_load_quiet (p : path) : respects no_cold_start (torch_load p).
Proof. unfold torch_load. quiet_frame. Qed.

Lemma os_remove_quiet (p : path) : respects no_cold_start (os_remove p).
Proof. unfold os_remove. quiet_frame. Qed.

Lemma shutil_copy2_quiet (src dst : path) : respects no_cold_start (shutil_copy2 src dst).
Proof. unfold shutil_copy2. quiet_frame. Qed.

Lemma os_makedirs_quiet (dir : path) : respects no_cold_start (os_makedirs dir).
Proof. unfold os_makedirs. quiet_frame. Qed.

Lemma shutil_rmtree_quiet (dir : path) : respects no_cold_start (shutil_rmtree dir).
Proof. unfold shutil_rmtree. quiet_frame. Qed.

Ltac quiet_files :=
  frame no_cold_start_refl no_cold_start_trans
    ltac:(first [ apply torch_load_quiet | apply os_remove_quiet | apply shutil_copy2_quiet
                | apply os_makedirs_quiet | apply shutil_rmtree_quiet | quiet_prim ]).

Lemma load_checkpoint_quiet (p : path) (model optimizer : bool) (ext : option modules)
    (strict amp lrs : bool) :
  respects no_cold_start (load_checkpoint p model optimizer ext strict amp lrs).
Proof.
  unfold load_checkpoint, restore_rng_state, model_load_state_dict,
    optimizer_load_state_dict, amp_load_state_dict, module_load_state_dict.
  quiet_files.
Qed.

Lemma meet_limit_quiet (lim : Z) (dir : path) (h : list string) (cp : option path) :
  respects no_cold_start (meet_limit lim dir h cp).
Proof.
  revert cp. induction h as [|x h IH]; intros cp; cbn [meet_limit]; quiet_files.
  apply IH.
Qed.

(** The loop at start-up rebinds [checkpoint_path], never to [None]. *)
Lemma meet_limit_keeps_path (lim : Z) (dir : path) (h h' : list string) (p : path)
    (cp' : option path) (w w' : world) :
  meet_limit lim dir h (Some p) w = (Ok (h', cp'), w') -> is_Some cp'.
Proof.
  revert p w. induction h as [|x h IH]; intros p w; cbn [meet_limit]; intros H.
  - destruct (_ >? _); [discriminate H|]. injection H as _ <- _. eauto.
  - destruct (_ >? _).
    + apply bind_ok_inv in H as ([] & w1 & _ & H). by eapply IH.
    + injection H as _ <- _. eauto.
Qed.

Lemma bootstrap_resume_quiet (a : train_args) (o : oracle) (p : path) :
  checkpoint_path a = Some p -> respects no_cold_start (bootstrap a o).
Proof.
  intros Hcp. unfold bootstrap. rewrite Hcp.
  apply (respects_bind _ no_cold_start_trans); [apply load_checkpoint_quiet|].
  intros [eo loss].
  do 6 (apply (respects_bind _ no_cold_start_trans); [quiet_files|]; intros ?).
  apply (respects_bind_ok _ no_cold_start_trans).
  { destruct (clamp_limit _); [apply meet_limit_quiet | quiet_files]. }
  intros [h cp] w w' Hrun.
  assert (is_Some cp) as [q ->].
  { destruct (clamp_limit _).
    - by eapply meet_limit_keeps_path.
    - injection Hrun as _ <- _. eauto. }
  match goal with
  | |- no_cold_start w' (?m w').2 => assert (respects no_cold_start m) as Hrest
  end.
  { frame no_cold_start_refl no_cold_start_trans
      ltac:(first [ apply load_checkpoint_quiet | apply shutil_copy2_quiet
                  | apply os_makedirs_quiet | quiet_prim ]). }
  apply Hrest.
Qed.

(** C7: a run that is given a checkpoint to resume from makes, up to the
    loop, none of the calls of the pass before the first epoch (no batch
    evaluated in inference mode, no summary written, no checkpoint
    saved), however its start-up ends; and when the start-up ends well,
    the checkpoint was a whole pickle and the loop starts from exactly
    the step recorded in it. *)
Theorem resume_starts_at_saved_step (a : train_args) (o : oracle) (p : path) (w : world) :
  checkpoint_path a = Some p ->
  no_cold_start w (bootstrap a o w).2
  /\ forall st w',
       bootstrap a o w = (Ok st, w') ->
       exists d, stat (fs w) p = Some (File true (Pickled d))
                 /\ epoch_offset st = ck_step d
                 /\ train a o w
                    = epoch_loop a o (Z.to_nat (epochs a - ck_step d)) (ck_step d) st w'.
Proof.
  intros Hcp. split; [by eapply bootstrap_resume_quiet|].
  intros st w' H.
  destruct (bootstrap_resume_inv _ _ _ _ _ _ Hcp H) as (d & Hstat & Heo & _).
  exists d. split; [done|]. split; [done|].
  unfold train. erewrite bind_run by exact H. by rewrite Heo.
Qed.

Lemma resume_starts_at_saved_step_witness :
  let w := Scenario.fresh Scenario.four_epochs in
  let o := Scenario.losses (FFin 1) (fun _ => FFin 1) in
  no_cold_start w (bootstrap Scenario.resume_first o w).2
  /\ epoch_offset <$> returned (bootstrap Scenario.resume_first o w).1 = Some 1.
Proof.
  intros w o.
  destruct (resume_starts_at_saved_step Scenario.resume_first o
              (join Scenario.ckpts "checkpoint_1.pth") w eq_refl) as [Hquiet Hstep].
  split; [exact Hquiet|].
  eassert (returned (bootstrap Scenario.resume_first o w).1 = Some _) as Hok
    by (vm_compute; reflexivity).
  destruct (Hstep _ _ (run_returned _ _ _ Hok)) as (d & Hstat & Hoff & _).
  assert (stat (fs w) (join Scenario.ckpts "checkpoint_1.pth")
          = Some (File true (Pickled (Scenario.saved 1 4 11)))) as E
    by (vm_compute; reflexivity).
  rewrite E in Hstat. injection Hstat as <-.
  rewrite Hok. cbn [fmap option_fmap option_map]. by rewrite Hoff.
Defined.

End Resume.

(** * train.py: the retention limit given *)

Section Limit.

Import Train Spec.

Lemma bootstrap_limit (a : train_args) (o : oracle) (w w' : world) (st : locals) :
  bootstrap a o w = (Ok st, w') -> limit st = clamp_limit (checkpoints_limit a).
Proof. unfold bootstrap. intros H. inv_run; done. Qed.

Lemma epoch_loop_with_limit (a : train_args) (o : oracle) (l : option Z) (n : nat)
    (epoch : Z) (st : locals) (w : world) :
  epoch_loop (with_limit a l) o n epoch st w = epoch_loop a o n epoch st w.
Proof.
  revert epoch st w. induction n as [|n IH]; intros epoch st w; simpl; [done|].
  change (train_epoch (with_limit a l) o epoch st) with (train_epoch a o epoch st).
  unfold mbind, M_bind, bind. destruct (train_epoch a o epoch st w) as [[st'|e] w1]; [|done].
  apply IH.
Qed.

(** C8, as the claim has it, fails: with a limit of [-3] the start-up of a
    fresh run ends without an exception and hands the loop a limit of 1,
    and the run (which here writes no further checkpoint) goes through
    all its epochs. *)
Lemma invalid_limit_not_rejected :
  let a := mkArgs 3 false None None 1 5 false (Some (-3)) None in
  match bootstrap a Scenario.three_losses (Scenario.fresh ∅) with
  | (Ok st, _) => limit st = Some 1
  | (Raise _, _) => False
  end
  /\ match train a Scenario.three_losses (Scenario.fresh ∅) with
     | (Ok st, w') =>
         limit st = Some 1
         /\ checkpoints_history st = ["checkpoint_0.pth"]
         /\ head (events w') = Some (EvSummaryWrite false 3)
     | (Raise _, _) => False
     end.
Proof. vm_compute. repeat split. Qed.

(** C8, amended: a limit below 1 is not refused.  The trainer replaces it
    by 1 and from there on behaves, at start-up and in the loop, exactly
    as if 1 had been given: the run with the limit below 1 and the run
    with the limit 1 end in the same result or the same exception, with
    the same effects. *)
Theorem invalid_limit_is_clamped (a : train_args) (o : oracle) (w : world) (L : Z) :
  checkpoints_limit a = Some L ->
  L < 1 ->
  bootstrap a o w = bootstrap (with_limit a (Some 1)) o w
  /\ train a o w = train (with_limit a (Some 1)) o w
  /\ forall st w', bootstrap a o w = (Ok st, w') -> limit st = Some 1.
Proof.
  intros HL Hlt.
  assert (bootstrap a o = bootstrap (with_limit a (Some 1)) o) as Hb.
  { unfold bootstrap, cold_start. cbn. rewrite HL. cbn.
    by replace (Z.max 1 L) with 1 by lia. }
  split; [by rewrite Hb|]. split.
  - unfold train. rewrite Hb. unfold mbind, M_bind, bind.
    destruct (bootstrap (with_limit a (Some 1)) o w) as [[st|e] w1]; [|done].
    symmetry. apply epoch_loop_with_limit.
  - intros st w' H. apply bootstrap_limit in H. rewrite H, HL. cbn. f_equal. lia.
Qed.

Lemma invalid_limit_is_clamped_witness :
  let a := mkArgs 3 false None None 1 5 false (Some (-3)) None in
  train a Scenario.three_losses (Scenario.fresh ∅)
  = train (with_limit a (Some 1)) Scenario.three_losses (Scenario.fresh ∅).
Proof.
  intros a.
  destruct (invalid_limit_is_clamped a Scenario.three_losses (Scenario.fresh ∅) (-3))
    as (_ & H & _); [reflexivity | lia | exact H].
Defined.

End Limit.

(** * train.py: extension states *)

Section Extensions.

Import Train Spec.

Lemma for_each_strict (d : checkpoint_dict) (ms : modules) (key : string) (m : nat)
    (w : world) :
  (key, m) ∈ ms -> ck_ext d !! key = None ->
  exists key' m' w',
    for_each ms (fun km =>
      match km with
      | (key, m) =>
          let state := ck_ext d !! key in
          if true && bool_decide (state = None)
          then raise (KeyError key)
          else module_load_state_dict key m state
      end) w = (Raise (KeyError key'), w')
    /\ (key', m') ∈ ms /\ ck_ext d !! key' = None.
Proof.
  intros Hin Habs. revert w. induction ms as [|[k m0] ms IH]; intros w.
  - by apply elem_of_nil in Hin.
  - cbn [for_each]. destruct (ck_ext d !! k) as [sd|] eqn:E.
    + apply elem_of_cons in Hin as [[= -> ->]|Hin]; [congruence|].
      destruct (IH Hin (emit (EvExtLoad k m0 (Some sd)) (set_ext_state m0 sd w).2).2)
        as (key' & m' & w' & Hrun & Hin' & Habs').
      exists key', m', w'. split; [|split; [by right|done]].
      erewrite bind_run by reflexivity. exact Hrun.
    + exists k, m0, w. split; [|split; [by left|done]].
      by erewrite bind_raise by reflexivity.
Qed.

Lemma for_each_lenient (d : checkpoint_dict) (ms : modules) (w : world) :
  exists w',
    for_each ms (fun km =>
      match km with
      | (key, m) =>
          let state := ck_ext d !! key in
          if false && bool_decide (state = None)
          then raise (KeyError key)
          else module_load_state_dict key m state
      end) w = (Ok tt, w')
    /\ (forall e, e ∈ events w -> e ∈ events w')
    /\ forall key m, (key, m) ∈ ms -> EvExtLoad key m (ck_ext d !! key) ∈ events w'.
Proof.
  revert w. induction ms as [|[k m0] ms IH]; intros w.
  - exists w. split; [done|]. split; [done|]. intros key m Hin. by apply elem_of_nil in Hin.
  - cbn [for_each andb].
    destruct (module_load_state_dict k m0 (ck_ext d !! k) w) as [r w1] eqn:Hload.
    assert (r = Ok tt /\ events w1 = EvExtLoad k m0 (ck_ext d !! k) :: events w) as [-> Hev].
    { unfold module_load_state_dict in Hload.
      destruct (ck_ext d !! k); injection Hload as <- <-; done. }
    destruct (IH w1) as (w' & Hrun & Hmono & Hall).
    exists w'. split; [by erewrite bind_run by exact Hload|]. split.
    + intros e He. apply Hmono. rewrite Hev. by right.
    + intros key m Hin. apply elem_of_cons in Hin as [[= -> ->]|Hin]; [|by apply Hall].
      apply Hmono. rewrite Hev. by left.
Qed.

Lemma torch_load_run (p : path) (d : checkpoint_dict) (w : world) :
  stat (fs w) p = Some (File true (Pickled d)) ->
  isfile (fs w) p = true /\ torch_load p w = (Ok d, w).
Proof.
  intros H. unfold isfile, torch_load. erewrite bind_run by reflexivity. by rewrite H.
Qed.

(** C6: a whole checkpoint that has no entry for one of the requested
    extension keys is loaded.  With [strict] the load ends in a
    [KeyError] that names a requested key missing from the checkpoint
    (the first such key), and returns nothing; without [strict] it ends
    well with the step and loss, and the module of the missing key had
    its [load_state_dict] called with [None]. *)
Theorem strict_load_missing_state (p : path) (model optimizer amp lrs : bool)
    (ms : modules) (key : string) (m : nat) (d : checkpoint_dict) (w : world) :
  stat (fs w) p = Some (File true (Pickled d)) ->
  (key, m) ∈ ms ->
  ck_ext d !! key = None ->
  (exists key' m' w',
     load_checkpoint p model optimizer (Some ms) true amp lrs w = (Raise (KeyError key'), w')
     /\ (key', m') ∈ ms /\ ck_ext d !! key' = None)
  /\ (exists w',
        load_checkpoint p model optimizer (Some ms) false amp lrs w
        = (Ok (ck_step d, ck_loss d), w')
        /\ EvExtLoad key m None ∈ events w').
Proof.
  intros Hstat Hin Habs. apply torch_load_run in Hstat as [Hfile Hload].
  assert (forall strict, exists w1,
      load_checkpoint p model optimizer (Some ms) strict amp lrs w
      = ((for_each ms (fun km =>
            match km with
            | (key, m) =>
                let state := ck_ext d !! key in
                if strict && bool_decide (state = None)
                then raise (KeyError key)
                else module_load_state_dict key m state
            end)
          ≫= fun _ => match ck_amp d with
                      | Some sd => when amp (amp_load_state_dict sd)
                      | None => mret tt
                      end
          ≫= fun _ => mret (ck_step d, ck_loss d)) w1)) as Hprefix.
  { intros strict. unfold load_checkpoint. erewrite bind_run by reflexivity.
    rewrite Hfile. cbn [negb]. erewrite bind_run by exact Hload.
    destruct lrs, model, optimizer; eexists;
      repeat (erewrite bind_run by reflexivity); reflexivity. }
  split.
  - destruct (Hprefix true) as [w1 ->].
    destruct (for_each_strict d ms key m w1 Hin Habs) as (key' & m' & w' & Hrun & Hin' & Habs').
    exists key', m', w'. split; [|done]. by erewrite bind_raise by exact Hrun.
  - destruct (Hprefix false) as [w1 ->].
    destruct (for_each_lenient d ms w1) as (w2 & Hrun & _ & Hall).
    specialize (Hall key m Hin). rewrite Habs in Hall.
    erewrite bind_run by exact Hrun.
    destruct (ck_amp d) as [sd|]; [destruct amp|]; eexists; (split; [reflexivity|]); cbn.
    + by right.
    + done.
    + done.
Qed.

Lemma strict_load_missing_state_witness :
  let p := join Scenario.ckpts "checkpoint_0.pth" in
  let w := Scenario.fresh Scenario.one_checkpoint in
  (exists key' w',
     load_checkpoint p true true (Some [("ema", 0%nat)]) true false true w
     = (Raise (KeyError key'), w'))
  /\ (exists w',
        load_checkpoint p true true (Some [("ema", 0%nat)]) false false true w
        = (Ok (0, FFin 4), w')
        /\ EvExtLoad "ema" 0 None ∈ events w').
Proof.
  intros p w.
  destruct (strict_load_missing_state p true true false true [("ema", 0%nat)] "ema" 0%nat
              (Scenario.saved 0 4 10) w) as [Hstrict Hlenient].
  - vm_compute. reflexivity.
  - by left.
  - reflexivity.
  - split.
    + destruct Hstrict as (key' & m' & w' & Hrun & _). eauto.
    + exact Hlenient.
Defined.

End Extensions.

(** * train.py: saving and loading again *)

Section RoundTrip.

Import Train Spec.





(** X2: a path that is not a file (nothing there, a directory, a
    dangling link) fails the assertion at the head of
    [load_checkpoint]: it raises [AssertionError] and nothing has been
    restored or touched, whatever was asked for. *)
Theorem load_checkpoint_not_a_file (p : path) (model optimizer : bool)
    (ext : option modules) (strict amp lrs : bool) (w : world) :
  isfile (fs w) p = false ->
  load_checkpoint p model optimizer ext strict amp lrs w = (Raise AssertionError, w).
Proof.
  intros H. unfold load_checkpoint. erewrite bind_run by reflexivity. by rewrite H.
Qed.

Lemma load_checkpoint_not_a_file_witness :
  let w := Scenario.fresh Scenario.one_checkpoint in
  load_checkpoint Scenario.ckpts true true None false false true w = (Raise AssertionError, w)
  /\ load_checkpoint (join Scenario.ckpts "checkpoint_9.pth") true true None false false true w
     = (Raise AssertionError, w).
Proof.
  intros w. split; apply load_checkpoint_not_a_file; vm_compute; reflexivity.
Defined.




End RoundTrip.

(** * train.py: the names of checkpoints *)

Section Names.

Import Train Spec.

Lemma list_ascii_app (s1 s2 : string) :
  String.list_ascii_of_string (s1 +:+ s2)
  = String.list_ascii_of_string s1 ++ String.list_ascii_of_string s2.
Proof. induction s1 as [|c s1 IH]; simpl; [done|]. by rewrite IH. Qed.

Lemma strip_prefix_app (pre rest : list ascii) : strip_prefix pre (pre ++ rest) = Some rest.
Proof. induction pre as [|c pre IH]; simpl; [done|]. by rewrite decide_True. Qed.

Lemma strip_prefix_inv (pre s rest : list ascii) :
  strip_prefix pre s = Some rest -> s = pre ++ rest.
Proof.
  revert s. induction pre as [|c pre IH]; intros s; simpl.
  - by intros [= ->].
  - destruct s as [|c' s]; [done|]. case_decide; [|done]. subst. intros H. by rewrite (IH _ H).
Qed.

Lemma int_of_digits_snoc (ds : list ascii) (c : ascii) :
  int_of_digits (ds ++ [c]) = 10 * int_of_digits ds + digit_value c.
Proof. unfold int_of_digits. by rewrite foldl_app. Qed.

Lemma forallb_rev {A} (f : A -> bool) (l : list A) : forallb f (rev l) = forallb f l.
Proof.
  induction l as [|x l IH]; simpl; [done|].
  rewrite forallb_app, IH. simpl. rewrite andb_true_r. apply andb_comm.
Qed.

(** The names the pattern accepts. *)
Lemma regex_accepts (ds : list ascii) (c : ascii) (nl : list ascii) :
  ds <> [] -> forallb is_digit ds = true -> c <> newline ->
  nl = [] \/ nl = [newline] ->
  checkpoint_regex_match
    (String.string_of_list_ascii
       (String.list_ascii_of_string "checkpoint_" ++ ds ++ [c]
        ++ String.list_ascii_of_string "pth" ++ nl))
  = Some (int_of_digits ds).
Proof.
  intros Hne Hdig Hc Hnl. unfold checkpoint_regex_match.
  rewrite String.list_ascii_of_string_of_list_ascii, strip_prefix_app. cbn [mbind option_bind].
  assert (rev (ds ++ [c] ++ String.list_ascii_of_string "pth" ++ nl)
          = rev nl ++ "h"%char :: "t"%char :: "p"%char :: c :: rev ds) as ->.
  { rewrite !rev_app_distr. cbn. by rewrite <- !app_assoc. }
  assert (forall r, (match rev nl ++ r with
                     | c0 :: r' => if decide (c0 = newline) then r' else rev nl ++ r
                     | [] => rev nl ++ r
                     end) = r \/ nl = [] /\ exists r', r = newline :: r') as Hstrip.
  { intros r. destruct Hnl as [->| ->]; cbn.
    - destruct r as [|c0 r]; [by left|]. case_decide; [right; subst; eauto | by left].
    - left. by rewrite decide_True. }
  destruct (Hstrip ("h"%char :: "t"%char :: "p"%char :: c :: rev ds)) as [->|[_ [r' Hr']]];
    [|discriminate Hr'].
  rewrite forallb_rev, Hdig, rev_involutive.
  rewrite bool_decide_eq_true_2 by done.
  rewrite bool_decide_eq_true_2; [done|].
  intros Hrev. apply (f_equal (@rev _)) in Hrev. rewrite rev_involutive in Hrev. done.
Qed.

(** Nothing else is accepted. *)
Lemma regex_accepted (name : string) (n : Z) :
  checkpoint_regex_match name = Some n ->
  exists ds c nl,
    String.list_ascii_of_string name
    = String.list_ascii_of_string "checkpoint_" ++ ds ++ [c]
      ++ String.list_ascii_of_string "pth" ++ nl
    /\ ds <> [] /\ forallb is_digit ds = true /\ c <> newline
    /\ (nl = [] \/ nl = [newline]) /\ n = int_of_digits ds.
Proof.
  unfold checkpoint_regex_match. intros H.
  destruct (strip_prefix _ _) as [rest|] eqn:Hpre; [|done]. cbn [mbind option_bind] in H.
  apply strip_prefix_inv in Hpre. rewrite Hpre. clear Hpre.
  assert (exists nl r, rev rest = rev nl ++ r /\ (nl = [] \/ nl = [newline])
            /\ match r with
               | "h"%char :: "t"%char :: "p"%char :: c :: ds =>
                   if bool_decide (c ≠ newline) && bool_decide (ds ≠ []) && forallb is_digit ds
                   then Some (int_of_digits (rev ds)) else None
               | _ => None
               end = Some n) as (nl & r & Hrev & Hnl & Hr).
  { destruct (rev rest) as [|c0 r'] eqn:E.
    - discriminate H.
    - destruct (decide (c0 = newline)) as [->|Hc0].
      + exists [newline], r'. split; [done|]. split; [by right|exact H].
      + exists [], (c0 :: r'). split; [done|]. split; [by left|exact H]. }
  clear H.
  destruct r as [|c1 [|c2 [|c3 [|c ds]]]];
    try (by repeat (case_match; try done)).
  assert (c1 = "h"%char /\ c2 = "t"%char /\ c3 = "p"%char) as (-> & -> & ->).
  { destruct c1 as [[] [] [] [] [] [] [] []]; try discriminate Hr;
      destruct c2 as [[] [] [] [] [] [] [] []]; try discriminate Hr;
      destruct c3 as [[] [] [] [] [] [] [] []]; try discriminate Hr; done. }
  cbn in Hr.
  destruct (bool_decide (c ≠ newline)) eqn:Hc; [|discriminate Hr].
  destruct (bool_decide (ds ≠ [])) eqn:Hds; [|discriminate Hr].
  destruct (forallb is_digit ds) eqn:Hdig; [|discriminate Hr].
  injection Hr as <-.
  apply bool_decide_eq_true_1 in Hc, Hds.
  exists (rev ds), c, nl.
  assert (rest = rev ds ++ [c] ++ String.list_ascii_of_string "pth" ++ nl) as ->.
  { rewrite <- (rev_involutive rest), Hrev. rewrite rev_app_distr. cbn.
    rewrite rev_involutive. by rewrite <- !app_assoc. }
  repeat split; try done.
  - intros Hnil. apply (f_equal (@rev _)) in Hnil. by rewrite rev_involutive in Hnil.
  - by rewrite forallb_rev.
Qed.

(** X4: among the names written in ASCII and no longer than a directory
    entry can be (so that [int] takes the numeral), the pattern
    [^checkpoint_(\d+).pth$] accepts exactly the names
    made of [checkpoint_], one or more decimal digits, any one
    character but a newline (the dot is not escaped, so [checkpoint_12xpth]
    is accepted as step 12), [pth], and at most one final newline; the
    step is the number the digits spell. *)
Theorem checkpoint_regex_match_spec (name : string) (n : Z) :
  ascii_only name ->
  (String.length name <= name_max)%nat ->
  checkpoint_regex_match name = Some n
  <-> exists ds c nl,
        String.list_ascii_of_string name
        = String.list_ascii_of_string "checkpoint_" ++ ds ++ [c]
          ++ String.list_ascii_of_string "pth" ++ nl
        /\ ds <> [] /\ forallb is_digit ds = true /\ c <> newline
        /\ (nl = [] \/ nl = [newline]) /\ n = int_of_digits ds.
Proof.
  intros _ _. split; [apply regex_accepted|].
  intros (ds & c & nl & Hname & Hne & Hdig & Hc & Hnl & ->).
  rewrite <- (String.string_of_list_ascii_of_string name), Hname.
  by apply regex_accepts.
Qed.

Lemma checkpoint_regex_match_spec_witness :
  checkpoint_regex_match "checkpoint_12xpth" = Some 12.
Proof.
  apply checkpoint_regex_match_spec.
  - apply Forall_forall. intros c Hc.
    repeat (apply elem_of_cons in Hc as [->|Hc]; [vm_compute; lia|]).
    by apply elem_of_nil in Hc.
  - vm_compute. lia.
  - exists ["1"; "2"]%char, "x"%char, []. repeat split; try done. by left.
Defined.

(** *** Decimal numerals *)

Lemma pretty_N_char_digit (x : N) :
  (x < 10)%N -> is_digit (pretty_N_char x) = true /\ digit_value (pretty_N_char x) = Z.of_N x.
Proof.
  intros H.
  assert (x = 0 \/ x = 1 \/ x = 2 \/ x = 3 \/ x = 4 \/ x = 5 \/ x = 6 \/ x = 7 \/ x = 8
          \/ x = 9)%N as Hx by lia.
  repeat (destruct Hx as [->|Hx]; [done|]). by subst.
Qed.

(** What [pretty_N_go] puts in front of its accumulator: the digits of
    the number. *)
Lemma pretty_N_go_digits (x : N) (s : string) :
  exists ds,
    String.list_ascii_of_string (pretty_N_go x s) = ds ++ String.list_ascii_of_string s
    /\ forallb is_digit ds = true
    /\ int_of_digits ds = Z.of_N x
    /\ ((0 < x)%N -> ds <> []).
Proof.
  revert s. induction (N.lt_wf_0 x) as [x _ IH]. intros s.
  assert (x = 0 \/ 0 < x)%N as [->|Hx] by lia.
  - exists []. rewrite pretty_N_go_0. repeat split; try done; lia.
  - rewrite pretty_N_go_step by done.
    destruct (IH (x `div` 10)%N) with (s := String (pretty_N_char (x `mod` 10)) s)
      as (ds & Hds & Hdig & Hval & _); [by apply N.div_lt|].
    destruct (pretty_N_char_digit (x `mod` 10)%N) as [Hd Hv]; [by apply N.mod_lt|].
    exists (ds ++ [pretty_N_char (x `mod` 10)]). repeat split.
    + rewrite Hds. cbn. by rewrite <- app_assoc.
    + rewrite forallb_app, Hdig. cbn. by rewrite Hd.
    + rewrite int_of_digits_snoc, Hval, Hv.
      rewrite (N.div_mod x 10) at 3 by done. lia.
    + intros _. by destruct ds.
Qed.

(** [str(n)] of a natural number: digits, at least one, that spell it. *)
Lemma pretty_nonneg_digits (e : Z) :
  0 <= e ->
  let ds := String.list_ascii_of_string (pretty e) in
  ds <> [] /\ forallb is_digit ds = true /\ int_of_digits ds = e.
Proof.
  intros He. destruct e as [|x|x]; [done| |lia].
  unfold pretty, pretty_Z, pretty, pretty_positive, pretty, pretty_N.
  rewrite decide_False by done.
  destruct (pretty_N_go_digits (N.pos x) "") as (ds & Hds & Hdig & Hval & Hne).
  change (String.list_ascii_of_string "") with (@nil ascii) in Hds.
  rewrite app_nil_r in Hds. rewrite Hds.
  repeat split; [by apply Hne|done|done].
Qed.

Lemma pretty_neg_dash (e : Z) :
  e < 0 -> exists rest, String.list_ascii_of_string (pretty e) = "-"%char :: rest.
Proof. intros He. destruct e as [|x|x]; [lia|lia|]. cbn. eauto. Qed.

Lemma checkpoint_name_chars (e : Z) :
  String.list_ascii_of_string (checkpoint_name e)
  = String.list_ascii_of_string "checkpoint_" ++ String.list_ascii_of_string (pretty e)
    ++ ["."%char] ++ String.list_ascii_of_string "pth" ++ [].
Proof. unfold checkpoint_name. by rewrite !list_ascii_app. Qed.

(** X5: the name the loop gives the checkpoint of a step that is not
    negative is accepted by the pattern of the start-up listing, with
    that very step; the name of a negative step is not accepted, so such
    a checkpoint is never listed again. *)
Theorem checkpoint_name_round_trip (e : Z) :
  checkpoint_regex_match (checkpoint_name e) = if 0 <=? e then Some e else None.
Proof.
  destruct (Z.leb_spec 0 e) as [He|He].
  - destruct (pretty_nonneg_digits e He) as (Hne & Hdig & Hval).
    rewrite <- (String.string_of_list_ascii_of_string (checkpoint_name e)),
      checkpoint_name_chars.
    rewrite regex_accepts; [by rewrite Hval|done|done|done|by left].
  - destruct (checkpoint_regex_match (checkpoint_name e)) as [n|] eqn:E; [|done].
    apply regex_accepted in E as (ds & c & nl & Hname & Hne & Hdig & _).
    rewrite checkpoint_name_chars in Hname. apply app_inv_head in Hname.
    destruct (pretty_neg_dash e He) as [rest Hrest]. rewrite Hrest in Hname.
    destruct ds as [|d ds]; [done|]. injection Hname as <- _.
    discriminate Hdig.
Qed.

End Names.

(** * train.py: the listing at start-up *)

Section Listing.

Import Train Spec.

Lemma list_checkpoints_perm (f : filesystem) (dir : path) :
  list_checkpoints f dir
  ≡ₚ filter (fun x => is_Some (checkpoint_regex_match x))
            (filter (fun ckpt => isfile f (join dir ckpt) = true) (listdir f dir)).
Proof.
  set (names := filter (fun ckpt => isfile f (join dir ckpt) = true) (listdir f dir)).
  assert (list_checkpoints f dir = map snd (sorted_by_key (numbered names))) as ->.
  { unfold list_checkpoints. fold names. by destruct names. }
  rewrite <- numbered_names. apply fmap_Permutation, sorted_by_key_perm.
Qed.

Lemma listdir_spec (f : filesystem) (dir : path) (x : string) :
  x ∈ listdir f dir <-> is_Some (f !! join dir x).
Proof.
  split; [apply listdir_elem|]. intros [n Hn].
  unfold listdir. apply list_elem_of_omap. exists (join dir x, n). split.
  - by apply elem_of_map_to_list.
  - assert (join dir x <> []) as Hne by (unfold join; by destruct dir).
    pose proof (dirname_join dir x) as Hd. pose proof (basename_join dir x) as Hb.
    destruct (join dir x) as [|c q]; [done|].
    cbn beta iota. rewrite Hd, Hb. by rewrite decide_True.
Qed.

Lemma sorted_steps_ascend (ks : list (Z * string)) :
  Forall consistent ks -> StronglySorted key_le ks ->
  StronglySorted steps_ascend (map snd ks).
Proof.
  intros Hc Hs. induction Hs as [|[n x] ks Hs IH Hx]; cbn; [constructor|].
  apply Forall_cons in Hc as [Hcx Hc]. constructor; [by apply IH|].
  apply Forall_fmap. apply Forall_forall. intros [m y] Hy.
  rewrite Forall_forall in Hx, Hc. specialize (Hx _ Hy). specialize (Hc _ Hy).
  unfold consistent, key_le, steps_ascend in *. cbn in *.
  intros nx ny Hnx Hny. simplify_eq. done.
Qed.

(** X6: the history the run starts with holds exactly the names in the
    checkpoint directory that are files (or links to files) and match
    the pattern, each once, in ascending order of their step; so the
    alias [checkpoint_last.pth] and the file [checkpoint_best.pth] are
    never part of it. *)
Theorem list_checkpoints_sorted_files (f : filesystem) (dir : path) :
  let h := list_checkpoints f dir in
  NoDup h
  /\ (forall x, x ∈ h <-> is_Some (f !! join dir x) /\ isfile f (join dir x) = true
                          /\ is_Some (checkpoint_regex_match x))
  /\ StronglySorted steps_ascend h
  /\ ("checkpoint_last.pth" ∉ h) /\ ("checkpoint_best.pth" ∉ h).
Proof.
  intros h.
  assert (forall x, x ∈ h <-> is_Some (f !! join dir x) /\ isfile f (join dir x) = true
                              /\ is_Some (checkpoint_regex_match x)) as Hmem.
  { intros x. unfold h. rewrite list_checkpoints_perm, !list_elem_of_filter, listdir_spec.
    tauto. }
  destruct (list_checkpoints_spec f dir) as (Hnd & _ & ks & Hks & Hc & Hs).
  split; [done|]. split; [done|]. split.
  - unfold h. rewrite Hks. by apply sorted_steps_ascend.
  - split; intros Hin; apply Hmem in Hin as (_ & _ & [n Hn]); vm_compute in Hn; discriminate Hn.
Qed.

Lemma insert_by_key_filter (k : Z) (x : Z * string) (l : list (Z * string)) :
  filter (fun y => y.1 = k) (insert_by_key x l)
  = filter (fun y => y.1 = k) (x :: l).
Proof.
  induction l as [|y l IH]; cbn [insert_by_key]; [done|].
  destruct (Z.leb_spec x.1 y.1) as [Hle|Hlt]; [done|].
  rewrite (filter_cons _ y), IH. rewrite !(filter_cons _ x), (filter_cons _ y).
  repeat case_decide; try done. lia.
Qed.

(** X7: [sorted(..., key=lambda x: x[0])] as the listing uses it: the
    result has the same entries, stands in ascending order of the key,
    and keeps entries of equal key in the order they came in. *)
Theorem sorted_by_key_stable (l : list (Z * string)) :
  sorted_by_key l ≡ₚ l
  /\ StronglySorted key_le (sorted_by_key l)
  /\ forall k, filter (fun y => y.1 = k) (sorted_by_key l) = filter (fun y => y.1 = k) l.
Proof.
  split; [apply sorted_by_key_perm|]. split; [apply sorted_by_key_sorted|].
  intros k. induction l as [|x l IH]; [done|].
  cbn [sorted_by_key foldr]. fold (sorted_by_key l).
  by rewrite insert_by_key_filter, !(filter_cons _ x), IH.
Qed.

End Listing.

(** * train.py: directories *)

Section Disk.

Import Train Spec.

Lemma makedirs_from_other (f : filesystem) (made todo p : path) :
  ~ p `prefix_of` (made ++ todo) -> makedirs_from f made todo !! p = f !! p.
Proof.
  revert f made. induction todo as [|c todo IH]; intros f made Hp; cbn [makedirs_from]; [done|].
  assert (join made c ++ todo = made ++ c :: todo) as Heq
    by (unfold join; by rewrite <- app_assoc).
  rewrite IH by (by rewrite Heq).
  destruct (f !! join made c); [done|].
  apply lookup_insert_ne. intros <-. apply Hp. rewrite <- Heq. by apply prefix_app_r.
Qed.

Lemma makedirs_from_keeps (f : filesystem) (made todo p : path) (n : node) :
  f !! p = Some n -> makedirs_from f made todo !! p = Some n.
Proof.
  revert f made. induction todo as [|c todo IH]; intros f made Hp; cbn [makedirs_from]; [done|].
  apply IH. destruct (f !! join made c) eqn:E; [done|].
  rewrite lookup_insert_ne; [done|]. intros <-. congruence.
Qed.

Lemma makedirs_from_made (f : filesystem) (made todo : path) :
  todo <> [] -> is_Some (makedirs_from f made todo !! (made ++ todo)).
Proof.
  revert f made. induction todo as [|c todo IH]; intros f made Hne; [done|].
  cbn [makedirs_from].
  assert (join made c ++ todo = made ++ c :: todo) as Heq
    by (unfold join; by rewrite <- app_assoc).
  destruct todo as [|c' todo].
  - cbn [makedirs_from]. rewrite app_nil_r in Heq. rewrite <- Heq.
    destruct (f !! join made c) eqn:E; [eauto|]. rewrite lookup_insert_eq. eauto.
  - rewrite <- Heq. by apply IH.
Qed.

Lemma makedirs_from_dirs (f : filesystem) (made todo p : path) :
  f !! p = None -> is_Some (makedirs_from f made todo !! p) ->
  makedirs_from f made todo !! p = Some Dir.
Proof.
  revert f made. induction todo as [|c todo IH]; intros f made Hp Hs; cbn [makedirs_from] in *.
  - rewrite Hp in Hs. by destruct Hs.
  - destruct (f !! join made c) eqn:E; [by apply IH|].
    destruct (decide (join made c = p)) as [<-|Hne].
    + apply makedirs_from_keeps, lookup_insert_eq.
    + apply IH; [by rewrite lookup_insert_ne|done].
Qed.

Lemma rmtree_lookup (f : filesystem) (dir p : path) :
  rmtree f dir !! p = if decide (dir `prefix_of` p) then None else f !! p.
Proof.
  unfold rmtree. case_decide as Hp.
  - apply map_lookup_filter_None. right. intros n _ Hn. by apply Hn.
  - destruct (f !! p) as [n|] eqn:E.
    + apply map_lookup_filter_Some. done.
    + apply map_lookup_filter_None. by left.
Qed.

Lemma path_exists_dir (f : filesystem) (p : path) :
  f !! p = Some Dir -> path_exists f p = true.
Proof.
  intros H. unfold path_exists, stat.
  rewrite follow_not_link by (intros t; by rewrite H). by rewrite H.
Qed.

Lemma stat_file (f : filesystem) (p : path) (b : bool) (c : content) :
  f !! p = Some (File b c) -> stat f p = Some (File b c).
Proof.
  intros H. unfold stat. rewrite follow_not_link by (intros t; by rewrite H). by rewrite H.
Qed.

Lemma stat_absent (f : filesystem) (p : path) : f !! p = None -> stat f p = None.
Proof.
  intros H. unfold stat. rewrite follow_not_link by (intros t; by rewrite H). by rewrite H.
Qed.

Lemma join_not_prefix (dir : path) (x : string) : ~ join dir x `prefix_of` dir.
Proof.
  intros [k Hk]. apply (f_equal length) in Hk. unfold join in Hk.
  rewrite !length_app in Hk. cbn in Hk. lia.
Qed.

Lemma join_join_not_prefix (dir : path) (x y : string) : ~ join (join dir x) y `prefix_of` dir.
Proof.
  intros [k Hk]. apply (f_equal length) in Hk. unfold join in Hk.
  rewrite !length_app in Hk. cbn in Hk. lia.
Qed.

Lemma shutil_copy2_run (src dst : path) (w : world) (b : bool) (c : content) :
  fs w !! src = Some (File b c) ->
  (fs w !! dst = None \/ exists b' c', fs w !! dst = Some (File b' c')) ->
  exists w', shutil_copy2 src dst w = (Ok tt, w')
             /\ fs w' = <[dst := File b c]> (fs w)
             /\ rng w' = rng w /\ net w' = net w /\ events w' = events w
             /\ model_state w' = model_state w /\ optimizer_state w' = optimizer_state w
             /\ amp_state w' = amp_state w /\ ext_state w' = ext_state w
             /\ cuda_available w' = cuda_available w.
Proof.
  intros Hsrc Hdst. unfold shutil_copy2. erewrite bind_run by reflexivity. cbn [fst].
  rewrite (stat_file _ _ _ _ Hsrc).
  assert (follow SYMLOOP_MAX (fs w) dst = dst) as ->.
  { apply follow_not_link. intros t. destruct Hdst as [->|(b' & c' & ->)]; done. }
  destruct Hdst as [->|(b' & c' & ->)]; eexists; (split; [reflexivity|]); done.
Qed.

End Disk.

(** * train.py: a run from scratch *)

Section Fresh.
Import Train Spec.

Lemma same_inputs_refl (w : world) : same_inputs w w.
Proof. by repeat split. Qed.

Lemma same_inputs_trans (w1 w2 w3 : world) :
  same_inputs w1 w2 -> same_inputs w2 w3 -> same_inputs w1 w3.
Proof. unfold same_inputs. intros (?&?&?&?&?&?) (?&?&?&?&?&?). repeat split; congruence. Qed.

Lemma make_checkpoint_dict_inputs (w w' : world) (step : Z) (loss : pyfloat)
    (ext : option modules) (amp : bool) :
  same_inputs w w' ->
  make_checkpoint_dict w' step loss ext amp = make_checkpoint_dict w step loss ext amp.
Proof.
  intros (Hc & Hr & Hm & Ho & Ha & He).
  unfold make_checkpoint_dict, get_rng_state, module_state_dict.
  by rewrite Hc, Hr, Hm, Ho, Ha, He.
Qed.

Lemma when_makedirs_run (b : bool) (dir : path) (w : world) :
  exists w', when b (os_makedirs dir) w = (Ok tt, w')
             /\ fs w' = (if b then makedirs (fs w) dir else fs w)
             /\ same_inputs w w' /\ net w' = net w /\ events w' = events w.
Proof. destruct b; eexists; (split; [reflexivity|]); by repeat split. Qed.

Lemma when_rmtree_run (b : bool) (dir : path) (w : world) :
  exists w', when b (shutil_rmtree dir) w = (Ok tt, w')
             /\ fs w' = (if b then rmtree (fs w) dir else fs w)
             /\ same_inputs w w' /\ net w' = net w /\ events w' = events w.
Proof. destruct b; eexists; (split; [reflexivity|]); by repeat split. Qed.

Lemma torch_save_inputs (d : checkpoint_dict) (p : path) (w : world) :
  fs w !! p = None ->
  exists w', torch_save d p w = (Ok tt, w')
             /\ fs w' = <[p := File true (Pickled d)]> (fs w)
             /\ same_inputs w w' /\ net w' = net w.
Proof.
  intros Hp. unfold torch_save. erewrite bind_run by reflexivity. cbn [fst].
  rewrite follow_not_link by (intros t; by rewrite Hp). rewrite Hp.
  eexists. split; [reflexivity|]. by repeat split.
Qed.

(** Writing a checkpoint where neither it nor the alias is yet. *)
Lemma save_checkpoint_fresh_run (p : path) (step : Z) (loss : pyfloat) (ext : option modules)
    (name : string) (amp : bool) (w : world) :
  let d := make_checkpoint_dict w step loss ext amp in
  let alias := join (dirname p) name in
  fs w !! p = None -> fs w !! alias = None -> alias <> p ->
  exists w', save_checkpoint p step loss ext (Some name) amp w = (Ok tt, w')
             /\ fs w' = <[alias := Symlink (basename p)]> (<[p := File true (Pickled d)]> (fs w))
             /\ same_inputs w w' /\ net w' = net w.
Proof.
  intros d alias Hp Ha Hne.
  destruct (torch_save_inputs d p w Hp) as (w1 & Hsave & Hfs1 & Hin1 & Hnet1).
  unfold save_checkpoint. erewrite bind_run by reflexivity. fold d.
  erewrite bind_run by exact Hsave. erewrite bind_run by reflexivity. cbn [fst].
  fold alias.
  assert (fs w1 !! alias = None) as Ha1 by (rewrite Hfs1; by rewrite lookup_insert_ne).
  rewrite (path_exists_absent _ _ Ha1). unfold when. erewrite bind_run by reflexivity.
  unfold os_symlink. erewrite bind_run by reflexivity. cbn [fst]. rewrite Ha1.
  eexists. split; [reflexivity|]. cbn. rewrite Hfs1. by repeat split; try apply Hin1.
Qed.

Lemma net_restored (n : ModelUtils.Net) :
  (if ModelUtils.training n then ModelUtils.train_ (ModelUtils.eval_ n)
   else ModelUtils.eval_ n) = n.
Proof. by destruct n as [[] ?]. Qed.

Lemma cold_start_run (a : train_args) (o : oracle) (dir : path) (h : list string) (w : world) :
  let d := make_checkpoint_dict w 0 (cold_loss o) (checkpoint_extra_modules a) (amp a) in
  let p0 := join dir "checkpoint_0.pth" in
  let alias := join dir "checkpoint_last.pth" in
  let best := join dir "checkpoint_best.pth" in
  fs w !! p0 = None -> fs w !! alias = None -> fs w !! best = None ->
  exists w',
    cold_start a o dir best h w = (Ok (h ++ ["checkpoint_0.pth"], (0, cold_loss o)), w')
    /\ fs w' = <[best := File true (Pickled d)]>
                 (<[alias := Symlink "checkpoint_0.pth"]>
                    (<[p0 := File true (Pickled d)]> (fs w)))
    /\ same_inputs w w' /\ net w' = net w.
Proof.
  intros d p0 alias best Hp0 Halias Hbest.
  assert (alias <> p0 /\ alias <> best /\ p0 <> best) as (Hap & Hab & Hpb).
  { unfold alias, p0, best. repeat split; intros Heq%join_inj; discriminate Heq. }
  unfold cold_start, with_evaluating. erewrite bind_run by reflexivity.
  rewrite last_last. fold p0. unfold finally.
  do 3 (erewrite bind_run by reflexivity).
  match goal with |- context [ (when _ _ ≫= _) ?w0 ] => set (wa := w0) end.
  assert (exists wb, when (val_dataset a)
                       (emit (EvEvaluateBatch true) ≫= fun _ => emit (EvSummaryWrite true 0)) wa
                     = (Ok tt, wb)
                     /\ fs wb = fs w /\ same_inputs w wb
                     /\ net wb = ModelUtils.eval_ (net w)) as (wb & Hwb & Hfsb & Hinb & Hnetb).
  { destruct (val_dataset a); eexists; (split; [reflexivity|]); by repeat split. }
  erewrite bind_run by exact Hwb.
  unfold checkpoint_last_name.
  destruct (save_checkpoint_fresh_run p0 0 (cold_loss o) (checkpoint_extra_modules a)
              "checkpoint_last.pth" (amp a) wb) as (wc & Hsave & Hfsc & Hinc & Hnetc).
  { by rewrite Hfsb. }
  { unfold p0. rewrite dirname_join, Hfsb. exact Halias. }
  { unfold p0. rewrite dirname_join. exact Hap. }
  erewrite bind_run by exact Hsave.
  rewrite (make_checkpoint_dict_inputs _ _ _ _ _ _ Hinb) in Hfsc. fold d in Hfsc.
  unfold p0 in Hfsc at 1 2. rewrite dirname_join, basename_join in Hfsc. fold p0 alias in Hfsc.
  destruct (shutil_copy2_run p0 best wc true (Pickled d))
    as (wd & Hcopy & Hfsd & Hrngd & Hnetd & _ & Hmd & Hod & Had & Hed & Hcd).
  { rewrite Hfsc, lookup_insert_ne by done. by rewrite lookup_insert_eq. }
  { left. rewrite Hfsc, !lookup_insert_ne by done. by rewrite Hfsb. }
  erewrite bind_run by exact Hcopy.
  assert (same_inputs w wd) as Hind.
  { eapply same_inputs_trans; [exact Hinb|]. eapply same_inputs_trans; [exact Hinc|].
    by repeat split. }
  assert (net wd = ModelUtils.eval_ (net w)) as Hnd by congruence.
  destruct (ModelUtils.training (net w)) eqn:Ht;
    (eexists; split; [reflexivity|]); cbn.
  all: rewrite Hfsd, Hfsc, Hfsb.
  all: split; [reflexivity|].
  all: split; [try exact Hind|].
  all: try (by repeat split; apply Hind).
  all: rewrite ?Hnd; destruct (net w) as [t ps]; cbn in *; by subst.
Qed.

Lemma emit_run (e : event) (w : world) :
  exists w', emit e w = (Ok tt, w')
             /\ fs w' = fs w /\ same_inputs w w' /\ net w' = net w.
Proof. eexists. split; [reflexivity|]. by repeat split. Qed.

Lemma when_emit_run (b : bool) (e : event) (w : world) :
  exists w', when b (emit e) w = (Ok tt, w')
             /\ fs w' = fs w /\ same_inputs w w' /\ net w' = net w.
Proof. destruct b; eexists; (split; [reflexivity|]); by repeat split. Qed.

Lemma listdir_nil (f : filesystem) (dir : path) :
  (forall x, f !! join dir x = None) -> listdir f dir = [].
Proof.
  intros H. destruct (listdir f dir) as [|x l] eqn:E; [done|].
  assert (x ∈ listdir f dir) as Hx by (rewrite E; by left).
  apply listdir_elem in Hx as [n Hn]. by rewrite H in Hn.
Qed.

Lemma child_not_prefix_sibling (td : path) (a b x : string) :
  ~ join (join td a) x `prefix_of` join td b.
Proof.
  intros [k Hk]. apply (f_equal length) in Hk. unfold join in Hk.
  rewrite !length_app in Hk. cbn in Hk. lia.
Qed.

Lemma bootstrap_fresh_run (a : train_args) (o : oracle) (w : world) :
  let ckdir := join (default ["."; "training"] (training_dir a)) "ckpts" in
  let d := make_checkpoint_dict w 0 (cold_loss o) (checkpoint_extra_modules a) (amp a) in
  checkpoint_path a = None ->
  wf_fs (fs w) ->
  exists w',
    bootstrap a o w
    = (Ok (mkLocals 0 (clamp_limit (checkpoints_limit a)) ckdir ["checkpoint_0.pth"]
                    (0, cold_loss o)), w')
    /\ fs w' !! join ckdir "checkpoint_0.pth" = Some (File true (Pickled d))
    /\ fs w' !! join ckdir "checkpoint_best.pth" = Some (File true (Pickled d))
    /\ fs w' !! join ckdir "checkpoint_last.pth" = Some (Symlink "checkpoint_0.pth")
    /\ (forall x, is_Some (fs w' !! join ckdir x) ->
                  x ∈ ["checkpoint_0.pth"; "checkpoint_last.pth"; "checkpoint_best.pth"])
    /\ net w' = net w.
Proof.
  intros ckdir d Hcp Hwf.
  set (td := default ["."; "training"] (training_dir a)) in *.
  set (sdir := join td "summary").
  unfold bootstrap. rewrite Hcp. fold td. fold ckdir. fold sdir.
  erewrite bind_run by reflexivity. cbn beta iota.
  erewrite bind_run by reflexivity. cbn [fst].
  destruct (when_makedirs_run (negb (path_exists (fs w) td)) td w)
    as (w1 & H1 & Hfs1 & Hin1 & Hnet1 & _).
  erewrite bind_run by exact H1.
  assert (forall p, ~ p `prefix_of` td -> fs w1 !! p = fs w !! p) as Hsame1.
  { intros p Hp. rewrite Hfs1. destruct (negb (path_exists (fs w) td)); [|done].
    by apply makedirs_from_other. }
  destruct (when_rmtree_run (path_exists (fs w1) ckdir) ckdir w1)
    as (w2 & H2 & Hfs2 & Hin2 & Hnet2 & _).
  assert (forall x, fs w2 !! join ckdir x = None) as Hc2.
  { intros x. rewrite Hfs2. destruct (path_exists (fs w1) ckdir) eqn:Hex.
    - rewrite rmtree_lookup. rewrite decide_True; [done|]. by apply prefix_app_r.
    - destruct (fs w1 !! join ckdir x) as [n|] eqn:E; [|done]. exfalso.
      rewrite Hsame1 in E by apply join_join_not_prefix.
      assert (fs w !! ckdir = Some Dir) as Hd.
      { rewrite <- (dirname_join ckdir x). apply Hwf; [eauto|].
        rewrite dirname_join. unfold ckdir, join. by destruct td. }
      rewrite <- Hsame1 in Hd by apply join_not_prefix.
      apply path_exists_dir in Hd. congruence. }
  destruct (when_rmtree_run (path_exists (fs w2) sdir) sdir w2)
    as (w3 & H3 & Hfs3 & Hin3 & Hnet3 & _).
  assert ((get_fs ≫= fun f => when (path_exists f ckdir) (shutil_rmtree ckdir)
            ≫= fun _ => get_fs ≫= fun f => when (path_exists f sdir) (shutil_rmtree sdir)) w1
          = (Ok tt, w3)) as Hclean.
  { erewrite bind_run by reflexivity. cbn [fst]. erewrite bind_run by exact H2.
    erewrite bind_run by reflexivity. exact H3. }
  erewrite bind_run by exact Hclean.
  assert (forall x, fs w3 !! join ckdir x = None) as Hc3.
  { intros x. rewrite Hfs3. destruct (path_exists (fs w2) sdir); [|apply Hc2].
    rewrite rmtree_lookup. case_decide; [done|]. apply Hc2. }
  erewrite bind_run by reflexivity. cbn [fst].
  destruct (when_makedirs_run (negb (path_exists (fs w3) ckdir)) ckdir w3)
    as (w4 & H4 & Hfs4 & Hin4 & Hnet4 & _).
  erewrite bind_run by exact H4.
  assert (forall x, fs w4 !! join ckdir x = None) as Hc4.
  { intros x. rewrite Hfs4. destruct (negb (path_exists (fs w3) ckdir)); [|apply Hc3].
    unfold makedirs. rewrite makedirs_from_other; [apply Hc3|]. apply join_not_prefix. }
  erewrite bind_run by reflexivity. cbn [fst].
  assert (list_checkpoints (fs w4) ckdir = []) as ->.
  { unfold list_checkpoints. by rewrite listdir_nil. }
  assert (match clamp_limit (checkpoints_limit a) with
          | Some lim => meet_limit lim ckdir [] None
          | None => mret ([], None)
          end w4 = (Ok ([], None), w4)) as H5.
  { destruct (checkpoints_limit a) as [L|]; cbn [clamp_limit]; [|done].
    apply meet_limit_compliant. cbn. lia. }
  erewrite bind_run by exact H5. cbn beta iota.
  erewrite bind_run by reflexivity. cbn [fst].
  destruct (when_makedirs_run (negb (path_exists (fs w4) sdir)) sdir w4)
    as (w5 & H6 & Hfs5 & Hin5 & Hnet5 & _).
  erewrite bind_run by exact H6.
  assert (forall x, fs w5 !! join ckdir x = None) as Hc5.
  { intros x. rewrite Hfs5. destruct (negb (path_exists (fs w4) sdir)); [|apply Hc4].
    unfold makedirs. rewrite makedirs_from_other; [apply Hc4|].
    apply child_not_prefix_sibling. }
  destruct (emit_run (EvSummaryWriter false) w5) as (w6 & H7 & Hfs6 & Hin6 & Hnet6).
  erewrite bind_run by exact H7.
  destruct (when_emit_run (val_dataset a) (EvSummaryWriter true) w6)
    as (w7 & H8 & Hfs7 & Hin7 & Hnet7).
  erewrite bind_run by exact H8.
  assert (same_inputs w w7) as Hin.
  { repeat (eapply same_inputs_trans; [eassumption|]). apply same_inputs_refl. }
  destruct (cold_start_run a o ckdir [] w7) as (w8 & H9 & Hfs8 & Hin8 & Hnet8).
  1-3: rewrite Hfs7, Hfs6; apply Hc5.
  erewrite bind_run by exact H9. cbn beta iota.
  rewrite (make_checkpoint_dict_inputs _ _ _ _ _ _ Hin) in Hfs8. fold d in Hfs8.
  eexists. split; [reflexivity|].
  assert (forall x y : string, x <> y -> join ckdir x <> join ckdir y) as Hne
    by (intros x y Hxy Heq; by apply join_inj in Heq).
  rewrite Hfs8. repeat split.
  - rewrite !lookup_insert_ne by (by apply Hne). apply lookup_insert_eq.
  - apply lookup_insert_eq.
  - rewrite lookup_insert_ne by (by apply Hne). apply lookup_insert_eq.
  - intros x Hx.
    destruct (decide (x = "checkpoint_best.pth")) as [->|?]; [set_solver|].
    destruct (decide (x = "checkpoint_last.pth")) as [->|?]; [set_solver|].
    destruct (decide (x = "checkpoint_0.pth")) as [->|?]; [set_solver|].
    rewrite !lookup_insert_ne in Hx by (by apply Hne).
    rewrite Hfs7, Hfs6, Hc5 in Hx. by destruct Hx.
  - congruence.
Qed.



Lemma four_epochs_wf : wf_fs (fs (Scenario.fresh Scenario.four_epochs)).
Proof.
  intros p [n Hn] Hd. cbn [fs Scenario.fresh] in *. unfold Scenario.four_epochs in Hn.
  apply elem_of_list_to_map_2 in Hn.
  repeat (apply elem_of_cons in Hn as [[= -> ->]|Hn];
          [first [by destruct Hd | vm_compute; reflexivity]|]).
  by apply elem_of_nil in Hn.
Qed.

Lemma prefix_of_three (a b c : string) (q : path) :
  q `prefix_of` [a; b; c] -> q ∈ [[]; [a]; [a; b]; [a; b; c]].
Proof.
  intros [k Hk].
  destruct q as [|x [|y [|z [|? ?]]]]; simplify_list_eq.
  - by left.
  - right; by left.
  - do 2 right; by left.
  - do 3 right; by left.
Qed.

Lemma four_epochs_plain : plain_dirs (fs (Scenario.fresh Scenario.four_epochs)) ["."; "training"].
Proof.
  intros q Hq.
  assert (q ∈ [[]; ["."]; ["."; "training"]; Scenario.ckpts;
               join ["."; "training"] "summary"]) as Hin.
  { destruct Hq as [Hq|Hq]; apply prefix_of_three in Hq;
      repeat (apply elem_of_cons in Hq as [->|Hq]; [set_solver|]); by apply elem_of_nil in Hq. }
  repeat (apply elem_of_cons in Hin as [->|Hin]; [vm_compute; eauto|]).
  by apply elem_of_nil in Hin.
Qed.


End Fresh.

(** * train.py: the history along a run *)

Section Loop.
Import Train Spec.

Lemma os_remove_inv (p : path) (w w' : world) :
  os_remove p w = (Ok tt, w') -> fs w' = delete p (fs w).
Proof.
  unfold os_remove. intros H. apply bind_ok_inv in H as (f & w0 & [= <- <-] & H).
  destruct (fs w !! p) as [[]|]; try discriminate H; by injection H as <-.
Qed.

Lemma meet_limit_inv (lim : Z) (dir : path) (h h' : list string) (cp cp' : option path)
    (w w' : world) :
  0 <= lim ->
  meet_limit lim dir h cp w = (Ok (h', cp'), w') -> h' = most_recent lim h.
Proof.
  intros Hlim. revert cp w. induction h as [|x h IH]; intros cp w; cbn [meet_limit]; intros H.
  - destruct (_ >? _); [discriminate H|]. by injection H as <- _ _.
  - destruct (Z.gtb_spec (Z.of_nat (length (x :: h))) lim) as [Hgt|Hle].
    + apply bind_ok_inv in H as ([] & w1 & _ & H). apply IH in H.
      by rewrite most_recent_cons by lia.
    + injection H as <- _ _. by rewrite most_recent_all.
Qed.

Lemma rotate_bound (lim : Z) (dir : path) (h l : list string) (epoch : Z) (w w' : world) :
  Z.of_nat (length h) <= lim ->
  rotate (Some lim) dir h epoch w = (Ok l, w') ->
  Z.of_nat (length l) <= lim.
Proof.
  intros Hlen. unfold rotate.
  destruct (Z.gtb_spec (Z.of_nat (length (h ++ [checkpoint_name epoch]))) lim) as [Hgt|Hle].
  - destruct h as [|x h]; cbn [app].
    + intros H. apply bind_ok_inv in H as ([] & w1 & _ & [= <- _]). cbn in *. lia.
    + intros H. apply bind_ok_inv in H as ([] & w1 & _ & [= <- _]).
      rewrite length_app. cbn [length] in *. lia.
  - by intros [= <- _].
Qed.

(** A turn of the loop keeps the history within the limit. *)
Lemma train_epoch_bound (a : train_args) (o : oracle) (epoch lim : Z) (st st' : locals)
    (w w' : world) :
  limit st = Some lim ->
  Z.of_nat (length (checkpoints_history st)) <= lim ->
  train_epoch a o epoch st w = (Ok st', w') ->
  limit st' = Some lim /\ Z.of_nat (length (checkpoints_history st')) <= lim.
Proof.
  intros Hlim Hlen H. unfold train_epoch in H. rewrite Hlim in H.
  inv_run; cbn; (split; [done|]); try done.
  all: by eapply rotate_bound.
Qed.

Lemma epoch_loop_bound (a : train_args) (o : oracle) (n : nat) (epoch lim : Z)
    (st st' : locals) (w w' : world) :
  limit st = Some lim ->
  Z.of_nat (length (checkpoints_history st)) <= lim ->
  epoch_loop a o n epoch st w = (Ok st', w') ->
  limit st' = Some lim /\ Z.of_nat (length (checkpoints_history st')) <= lim.
Proof.
  revert epoch st w. induction n as [|n IH]; intros epoch st w Hlim Hlen H; cbn in H.
  - by injection H as <- _.
  - apply bind_ok_inv in H as (st1 & w1 & Hturn & H).
    destruct (train_epoch_bound _ _ _ _ _ _ _ _ Hlim Hlen Hturn) as [Hlim1 Hlen1].
    by eapply IH.
Qed.

Lemma bootstrap_resume_bound (a : train_args) (o : oracle) (p : path) (L : Z)
    (st : locals) (w w' : world) :
  checkpoint_path a = Some p -> checkpoints_limit a = Some L ->
  bootstrap a o w = (Ok st, w') ->
  Z.of_nat (length (checkpoints_history st)) <= Z.max 1 L.
Proof.
  intros Hcp HL H. unfold bootstrap in H. rewrite Hcp, HL in H. cbn [clamp_limit] in H.
  inv_run; cbn.
  all: match goal with
       | Hm : meet_limit _ _ _ (Some _) _ = (Ok (_, None), _) |- _ =>
           apply meet_limit_keeps_path in Hm; by destruct Hm
       | Hm : meet_limit _ _ _ _ _ = (Ok (?l, _), _) |- _ =>
           apply meet_limit_inv in Hm; [subst; apply most_recent_length|]; lia
       end.
Qed.

(** X9: with a retention limit, a run that ends well ends within it.
    Whether the run started from scratch or resumed, and however many
    checkpoints the directory held, the limit in force is [max(1, L)] and
    the history the loop ends with has at most that many names. *)
Theorem history_within_limit (a : train_args) (o : oracle) (L : Z) (st : locals)
    (w w' : world) :
  wf_fs (fs w) ->
  checkpoints_limit a = Some L ->
  train a o w = (Ok st, w') ->
  limit st = Some (Z.max 1 L)
  /\ Z.of_nat (length (checkpoints_history st)) <= Z.max 1 L.
Proof.
  intros Hwf HL H. unfold train in H.
  apply bind_ok_inv in H as (st0 & w0 & Hboot & H).
  eapply epoch_loop_bound; [| |exact H].
  - apply bootstrap_limit in Hboot. by rewrite Hboot, HL.
  - destruct (checkpoint_path a) as [p|] eqn:Hcp.
    + by eapply bootstrap_resume_bound.
    + destruct (bootstrap_fresh_run a o w Hcp Hwf) as (w1 & Hrun & _).
      rewrite Hrun in Hboot. injection Hboot as <- _. cbn. lia.
Qed.

Lemma history_within_limit_witness :
  let run := train Scenario.resume_first (Scenario.losses (FFin 1) (fun _ => FFin 1))
                   (Scenario.fresh Scenario.four_epochs) in
  exists st, returned run.1 = Some st
             /\ Z.of_nat (length (checkpoints_history st)) <= 2.
Proof.
  intros run.
  eassert (returned run.1 = Some _) as Hok by (vm_compute; reflexivity).
  eexists. split; [exact Hok|].
  apply (history_within_limit Scenario.resume_first _ 2 _ _ _ four_epochs_wf eq_refl
           (run_returned _ _ _ Hok)).
Defined.









End Loop.

(** * train.py: resuming over the limit *)

Section Rebind.
Import Train Spec.

Lemma same_disk_refl (w : world) : same_disk w w.
Proof. done. Qed.

Lemma same_disk_trans (w1 w2 w3 : world) : same_disk w1 w2 -> same_disk w2 w3 -> same_disk w1 w3.
Proof. unfold same_disk. intros [] []. split; congruence. Qed.

Lemma load_checkpoint_disk (p : path) (model optimizer : bool) (ext : option modules)
    (strict amp lrs : bool) :
  respects same_disk (load_checkpoint p model optimizer ext strict amp lrs).
Proof.
  unfold load_checkpoint, torch_load, restore_rng_state, model_load_state_dict,
    optimizer_load_state_dict, amp_load_state_dict, module_load_state_dict.
  frame same_disk_refl same_disk_trans ltac:(intros ?; split; reflexivity).
Qed.

(** Over the limit, the loop at start-up leaves [checkpoint_path] on the
    last name it removed. *)
Lemma meet_limit_evicts (lim : Z) (dir : path) (h : list string) (cp : option path)
    (w : world) :
  0 <= lim -> NoDup h ->
  (forall x, x ∈ h -> exists n, fs w !! join dir x = Some n /\ n <> Dir) ->
  lim < Z.of_nat (length h) ->
  exists x w',
    h !! (length h - Z.to_nat lim - 1)%nat = Some x
    /\ meet_limit lim dir h cp w = (Ok (most_recent lim h, Some (join dir x)), w')
    /\ fs w' !! join dir x = None
    /\ (forall q, (forall y, y ∈ h -> q <> join dir y) -> fs w' !! q = fs w !! q).
Proof.
  intros Hlim. revert cp w. induction h as [|x h IH]; intros cp w Hnd Hfs Hlen.
  { cbn in Hlen. lia. }
  apply NoDup_cons in Hnd as [Hx Hnd].
  destruct (Hfs x) as (n & Hn & Hd); [left|].
  destruct (os_remove_run _ _ _ Hn Hd) as (w1 & Hrun & Hfs1).
  assert (forall y, y ∈ h -> exists n, fs w1 !! join dir y = Some n /\ n <> Dir) as Hfs'.
  { intros y Hy. rewrite Hfs1. destruct (Hfs y) as (m & Hm & Hmd); [by right|].
    exists m. split; [|done]. rewrite lookup_delete_ne; [done|].
    intros Heq. apply join_inj in Heq. by subst. }
  cbn [meet_limit].
  replace (Z.of_nat (length (x :: h)) >? lim) with true
    by (symmetry; rewrite Z.gtb_ltb; apply Z.ltb_lt; lia).
  erewrite bind_run by exact Hrun. rewrite most_recent_cons by lia.
  destruct (Z.lt_ge_cases lim (Z.of_nat (length h))) as [Hlt|Hge].
  - destruct (IH (Some (join dir x)) w1 Hnd Hfs' Hlt) as (y & w' & Hy & Hrest & Hgone & Hother).
    exists y, w'. cbn [length] in *. split; [|split; [done|split; [done|]]].
    + replace (S (length h) - Z.to_nat lim - 1)%nat with (S (length h - Z.to_nat lim - 1)) by lia.
      exact Hy.
    + intros q Hq. rewrite Hother by (intros z Hz; apply Hq; by right).
      rewrite Hfs1. apply lookup_delete_ne. intros Heq. by apply (Hq x); [left|].
  - exists x, w1. cbn [length] in *. split; [|split; [|split]].
    + replace (S (length h) - Z.to_nat lim - 1)%nat with 0%nat by lia. done.
    + rewrite meet_limit_compliant by lia. by rewrite most_recent_all by lia.
    + rewrite Hfs1. apply lookup_delete_eq.
    + intros q Hq. rewrite Hfs1. apply lookup_delete_ne. intros Heq. by apply (Hq x); [left|].
Qed.

(** X12: the loop that meets the limit at start-up reuses the variable
    [checkpoint_path], and the run then copies from it.  A run that
    resumes into a directory with more numbered checkpoints than the
    limit and without [checkpoint_best.pth] removes the oldest ones and
    then raises [FileNotFoundError] for the last one it removed, the name
    just before the ones it keeps: that is the path it hands to
    [shutil.copy2] to make the best checkpoint. *)
Theorem resume_over_limit_loses_source (a : train_args) (o : oracle) (p : path) (L : Z)
    (r : Z * pyfloat) (w w1 : world) :
  let td := default ["."; "training"] (training_dir a) in
  let ckdir := join td "ckpts" in
  let h := list_checkpoints (fs w) ckdir in
  checkpoint_path a = Some p ->
  checkpoints_limit a = Some L ->
  load_checkpoint p true true (checkpoint_extra_modules a) false (amp a) true w = (Ok r, w1) ->
  fs w !! td = Some Dir ->
  fs w !! ckdir = Some Dir ->
  plain_dirs (fs w) td ->
  fs w !! join ckdir "checkpoint_best.pth" = None ->
  Z.max 1 L < Z.of_nat (length h) ->
  exists x w',
    h !! (length h - Z.to_nat (Z.max 1 L) - 1)%nat = Some x
    /\ bootstrap a o w = (Raise (FileNotFoundError (join ckdir x)), w')
    /\ fs w' !! join ckdir x = None.
Proof.
  intros td ckdir h Hcp HL Hload Htd Hck _ Hbest Hover.
  apply path_exists_dir in Htd, Hck.
  set (sdir := join td "summary").
  set (best := join ckdir "checkpoint_best.pth") in *.
  destruct (respects_run _ _ _ _ _ (load_checkpoint_disk _ _ _ _ _ _ _) Hload) as [Hfs1 _].
  destruct (list_checkpoints_spec (fs w) ckdir) as (Hnd & Hfiles & _). fold h in Hnd, Hfiles.
  destruct (meet_limit_evicts (Z.max 1 L) ckdir h (Some p) w1) as (x & w2 & Hx & Hmeet & Hgone & Hother);
    [lia|done| |done|].
  { intros y Hy. rewrite Hfs1. by apply Hfiles. }
  exists x.
  assert (fs w2 !! best = None) as Hbest2.
  { rewrite Hother, Hfs1; [done|]. intros y Hy Heq. apply join_inj in Heq. subst y.
    apply Hfiles in Hy as (n & Hn & _). unfold best in Hbest. congruence. }
  destruct (when_makedirs_run (negb (path_exists (fs w2) sdir)) sdir w2)
    as (w3 & H3 & Hfs3 & _).
  assert (forall y, fs w3 !! join ckdir y = fs w2 !! join ckdir y) as Hsame3.
  { intros y. rewrite Hfs3. destruct (negb (path_exists (fs w2) sdir)); [|done].
    unfold makedirs. apply makedirs_from_other, child_not_prefix_sibling. }
  destruct (emit_run (EvSummaryWriter false) w3) as (w4 & H4 & Hfs4 & _).
  destruct (when_emit_run (val_dataset a) (EvSummaryWriter true) w4) as (w5 & H5 & Hfs5 & _).
  assert (forall y, fs w5 !! join ckdir y = fs w2 !! join ckdir y) as Hsame5.
  { intros y. by rewrite Hfs5, Hfs4. }
  exists w5. split; [done|]. split; [|by rewrite Hsame5].
  unfold bootstrap. rewrite Hcp, HL. cbn [clamp_limit].
  erewrite bind_run by exact Hload. destruct r as [eo loss]. cbn beta iota.
  erewrite bind_run by reflexivity. cbn [fst]. rewrite Hfs1. fold td. rewrite Htd. cbn [negb when].
  erewrite bind_run by reflexivity. fold ckdir sdir.
  erewrite bind_run by reflexivity.
  erewrite bind_run by reflexivity. cbn [fst]. rewrite Hfs1, Hck. cbn [negb when].
  erewrite bind_run by reflexivity.
  erewrite bind_run by reflexivity. cbn [fst]. rewrite Hfs1. fold h.
  erewrite bind_run by exact Hmeet. cbn beta iota.
  erewrite bind_run by reflexivity. cbn [fst].
  erewrite bind_run by exact H3.
  erewrite bind_run by exact H4.
  erewrite bind_run by exact H5.
  erewrite bind_raise; [reflexivity|].
  erewrite bind_run by reflexivity. cbn [fst]. fold best.
  rewrite path_exists_absent by (unfold best; by rewrite Hsame5).
  erewrite bind_raise; [reflexivity|].
  unfold shutil_copy2. erewrite bind_run by reflexivity. cbn [fst].
  rewrite stat_absent by (by rewrite Hsame5). reflexivity.
Qed.

Lemma resume_over_limit_loses_source_witness :
  let f := delete (join Scenario.ckpts "checkpoint_best.pth") Scenario.four_epochs in
  let a := mkArgs 6 false None (Some (join Scenario.ckpts "checkpoint_4.pth")) 1 1 false
                  (Some 2) None in
  exists w',
    bootstrap a Scenario.three_losses (Scenario.fresh f)
    = (Raise (FileNotFoundError (join Scenario.ckpts "checkpoint_2.pth")), w').
Proof.
  intros f a.
  eassert (returned (load_checkpoint (join Scenario.ckpts "checkpoint_4.pth") true true None
                       false false true (Scenario.fresh f)).1 = Some _) as Hok
    by (vm_compute; reflexivity).
  destruct (resume_over_limit_loses_source a Scenario.three_losses _ 2 _ _ _ eq_refl eq_refl
              (run_returned _ _ _ Hok))
    as (x & w' & Hx & Hrun & _); try (vm_compute; reflexivity).
  { intros q Hq. change (fs (Scenario.fresh f)) with f. unfold f.
    rewrite lookup_delete_ne; [by apply four_epochs_plain|].
    intros <-. destruct Hq as [[k Hk]|[k Hk]]; discriminate Hk. }
  vm_compute in Hx. injection Hx as <-.
  exists w'. exact Hrun.
Defined.

End Rebind.

(** * train.py: the periods of summaries and checkpoints *)

Section Periods.
Import Train Spec.

(** X13: a period of zero is not refused when the run starts.  With
    [epochs_per_summary] or [epochs_per_checkpoint] equal to 0, a turn of
    the loop trains its epoch and then raises [ZeroDivisionError] at the
    test [epoch % period == 0].  With [epochs_per_summary = 0] that is
    before any summary is written; with only [epochs_per_checkpoint = 0]
    the summary of the epoch, when it is due, is written first: the call
    of the summary writer is among the events.  In both cases the turn
    saves, removes and links no checkpoint: none of the file operations of
    [train] and [save_checkpoint] is made, so [fs], which holds what these
    two write and not the files of the summary writer, is as it was. *)
Theorem zero_period_raises (a : train_args) (o : oracle) (epoch : Z) (st : locals) (w : world) :
  epochs_per_summary a = 0 \/ epochs_per_checkpoint a = 0 ->
  exists w',
    train_epoch a o epoch st w = (Raise ZeroDivisionError, w')
    /\ fs w' = fs w /\ fs_seen w' = fs_seen w
    /\ model_state w' = ob_model (observe o (epoch + 1))
    /\ events w'
       = (if epochs_per_summary a =? 0 then []
          else if (epoch + 1) mod epochs_per_summary a =? 0
               then [EvSummaryWrite false (epoch + 1)] else [])
         ++ EvTrainEpoch (epoch + 1) :: events w.
Proof.
  intros Hzero. unfold train_epoch. do 6 (erewrite bind_run by reflexivity).
  destruct (Z.eqb_spec (epochs_per_summary a) 0) as [Hs|Hs].
  - eexists. split.
    { erewrite bind_raise; [reflexivity|]. unfold py_mod. rewrite Hs. reflexivity. }
    by repeat split.
  - destruct Hzero as [?|Hc]; [done|].
    unfold py_mod. rewrite (proj2 (Z.eqb_neq _ _) Hs), Hc. cbn [Z.eqb].
    erewrite bind_run by reflexivity.
    match goal with |- context [ (when ?bb (emit ?e) ≫= _) ?w0 ] =>
      destruct (when_emit_run bb e w0) as (w1 & H1 & Hfs1 & Hin1 & _);
      assert (events w1 = (if bb then [e] else []) ++ events w0
              /\ fs_seen w1 = fs_seen w0) as [Hev1 Hseen1]
        by (clear -H1; destruct bb; by injection H1 as <-)
    end.
    erewrite bind_run by exact H1.
    exists w1. split.
    { erewrite bind_raise; reflexivity. }
    split; [done|]. split; [done|]. split; [apply Hin1|]. exact Hev1.
Qed.

Lemma zero_period_raises_witness :
  let a := mkArgs 3 false None None 1 0 false None None in
  exists w',
    train_epoch a Scenario.three_losses 0 Scenario.after_first_pass
                (Scenario.fresh Scenario.one_checkpoint)
    = (Raise ZeroDivisionError, w')
    /\ fs w' = Scenario.one_checkpoint
    /\ events w' = [EvSummaryWrite false 1; EvTrainEpoch 1].
Proof.
  intros a.
  destruct (zero_period_raises a Scenario.three_losses 0 Scenario.after_first_pass
              (Scenario.fresh Scenario.one_checkpoint) (or_intror eq_refl))
    as (w' & Hrun & Hfs & _ & _ & Hev).
  exists w'. split; [exact Hrun|]. split; [exact Hfs | exact Hev].
Defined.

End Periods.

(** * train.py: a run from scratch, to its end *)

Section Complete.
Import Train Spec.


























End Complete.

(** * model.py and train.py: what a step returns *)

Section ForwardSteps.

Import ModelUtils Forward.

Lemma res_bind_inv {A B} (m : res A) (k : A -> res B) (b : B) :
  m ≫= k = Returns b -> exists a, m = Returns a /\ k a = Returns b.
Proof. destruct m as [a|e]; [eauto | done]. Qed.

(** The inner function of [forward_step] returns nothing but instances
    of [ForwardResult]. *)
Lemma step_func_result (fa : forward_step_args) (mb : callable * pyobj) (r : pyobj) :
  step_func fa mb = Returns r -> exists o t l, r = PForwardResult o t l.
Proof.
  destruct mb as [model batch]. unfold step_func. intros H.
  repeat (apply res_bind_inv in H as (? & _ & H)).
  injection H as <-. eauto.
Qed.

(** The wrapper takes the [ForwardResult] of the inner function for the
    outputs. *)
Lemma forward_step_eq (fa : forward_step_args) (mb : callable * pyobj) :
  forward_step fa mb = (r ← step_func fa mb; Returns (PForwardResult r PNone PNone)).
Proof.
  unfold forward_step, ForwardStepWrapper.
  destruct (step_func fa mb) as [r|e] eqn:E; [|done].
  by destruct (step_func_result _ _ _ E) as (o & t & l & ->).
Qed.

(** X15: what [forward_step] builds never hands out the loss.  The
    inner function returns a [ForwardResult]; that is neither a [dict]
    nor a [tuple], so the wrapper takes it for the outputs: whenever the
    call returns, its result has the inner [ForwardResult] as [outputs]
    and [None] as [targets] and as [loss]; the loss of the criterion is
    at [result.outputs.loss].  An exception of the inner function goes
    through unchanged. *)
Theorem forward_step_nests (fa : forward_step_args) (model : callable) (batch : pyobj) :
  forward_step fa (model, batch)
  = (r ← step_func fa (model, batch); Returns (PForwardResult r PNone PNone))
  /\ (forall r, step_func fa (model, batch) = Returns r -> exists o t l, r = PForwardResult o t l)
  /\ (forall res, forward_step fa (model, batch) = Returns res -> attr_loss res = Returns PNone).
Proof.
  split; [apply forward_step_eq|]. split; [apply step_func_result|].
  intros res. rewrite forward_step_eq. intros H. apply res_bind_inv in H as (r & _ & H).
  by injection H as <-.
Qed.

Lemma get_elem_of (key : string) (items : list (string * pyobj)) (v : pyobj) :
  NoDup items.*1 -> get key items = Some v <-> (key, v) ∈ items.
Proof.
  induction items as [|[k x] items IH]; cbn [get fmap list_fmap fst]; intros Hnd.
  - split; [done | by intros ?%elem_of_nil].
  - apply NoDup_cons in Hnd as [Hk Hnd]. rewrite elem_of_cons. destruct (decide (k = key)) as [->|Hne].
    + split; [intros [= ->]; by left|]. intros [[= ->]|Hin]; [done|].
      exfalso. apply Hk. apply list_elem_of_fmap. by exists (key, v).
    + rewrite (IH Hnd). split; [tauto|]. intros [[= -> ->]|?]; done.
Qed.

Lemma get_perm (key : string) (items items' : list (string * pyobj)) :
  NoDup items.*1 -> items ≡ₚ items' -> get key items = get key items'.
Proof.
  intros Hnd Hp.
  assert (NoDup items'.*1) as Hnd' by (by rewrite <- Hp).
  apply option_eq. intros v. rewrite !get_elem_of by done. by rewrite Hp.
Qed.

(** Keyword arguments bind by name: the order of the items of the dict
    does not matter. *)
Lemma ForwardResult_kwargs_perm (items items' : list (string * pyobj)) :
  NoDup items.*1 -> items ≡ₚ items' -> ForwardResult_kwargs items = ForwardResult_kwargs items'.
Proof.
  intros Hnd Hp. unfold ForwardResult_kwargs.
  rewrite !(get_perm _ items items') by done.
  replace (forallb (fun kv => bool_decide (kv.1 ∈ ["outputs"; "targets"; "loss"])) items')
    with (forallb (fun kv => bool_decide (kv.1 ∈ ["outputs"; "targets"; "loss"])) items); [done|].
  apply eq_true_iff_eq. rewrite <- !Is_true_true, !forallb_True. by rewrite Hp.
Qed.

(** X16: with a step made by [forward_step] the train step has no loss.
    Whenever the inner function returns, [_TrainStep] returns [None]
    for the loss and keeps the nested result, and [default_calc_metrics],
    wrapped or not, raises [AttributeError] on that result, since
    [None] has no [item]. *)
Theorem train_step_loses_loss (fa : forward_step_args) (model : callable) (batch last r : pyobj) :
  step_func fa (model, batch) = Returns r ->
  TrainStep (forward_step fa) last (model, batch)
  = (Returns PNone, PForwardResult r PNone PNone)
  /\ default_calc_metrics (PForwardResult r PNone PNone) = Raises AttributeError
  /\ CalcMetricsWrapper default_calc_metrics (PForwardResult r PNone PNone)
     = Raises AttributeError.
Proof.
  intros H. split; [|done]. unfold TrainStep. by rewrite forward_step_eq, H.
Qed.


Lemma train_step_loses_loss_witness :
  let first : callable := fun args => Returns (default PNone (head args)) in
  let fa := mkForwardStep first (Some first)
              (Some (fun _ => Returns (PTensor true [] [NFloat (FFin 1)]))) None None in
  TrainStep (forward_step fa) PNone (first, PNum (NInt 3))
  = (Returns PNone,
     PForwardResult (PForwardResult (PNum (NInt 3)) (PNum (NInt 3))
                                    (PTensor true [] [NFloat (FFin 1)])) PNone PNone).
Proof.
  intros first fa.
  destruct (train_step_loses_loss fa first (PNum (NInt 3)) PNone _ eq_refl) as [H _].
  exact H.
Defined.

(** X17: a step function that returns the tuple [(outputs, targets,
    loss)] or a dict with these three keys, in any order, with a loss
    tensor of one element.  The wrapped function gives the
    [ForwardResult] of the three, the train step returns the loss
    tensor and keeps the result, and the wrapped [default_calc_metrics]
    gives [{'loss': number}] with the number the tensor holds. *)
Theorem train_step_tuple_or_dict {Args} (func : Args -> res pyobj) (args : Args)
    (last o t : pyobj) (rg : bool) (shape : list nat) (data : list number) :
  let l := PTensor rg shape data in
  numel shape = 1%nat ->
  (func args = Returns (PTuple [o; t; l])
   \/ exists items, func args = Returns (PDict items) /\ NoDup items.*1
                    /\ items ≡ₚ [("outputs", o); ("targets", t); ("loss", l)]) ->
  ForwardStepWrapper func args = Returns (PForwardResult o t l)
  /\ TrainStep (ForwardStepWrapper func) last args = (Returns l, PForwardResult o t l)
  /\ CalcMetricsWrapper default_calc_metrics (PForwardResult o t l)
     = Returns (VDict [("loss", VNum (item data))]).
Proof.
  intros l Hone Hfunc.
  assert (ForwardStepWrapper func args = Returns (PForwardResult o t l)) as Hw.
  { unfold ForwardStepWrapper. destruct Hfunc as [->|(items & -> & Hnd & Hp)]; [done|].
    cbn. by rewrite (ForwardResult_kwargs_perm _ _ Hnd Hp). }
  split; [done|]. split.
  - unfold TrainStep. by rewrite Hw.
  - unfold CalcMetricsWrapper, default_calc_metrics. cbn. by rewrite decide_True.
Qed.

Lemma train_step_tuple_or_dict_witness :
  let l := PTensor true [1%nat] [NFloat (FFin 1)] in
  let func : unit -> res pyobj :=
    fun _ => Returns (PDict [("loss", l); ("outputs", PNum (NInt 3)); ("targets", PNone)]) in
  TrainStep (ForwardStepWrapper func) PNone tt
  = (Returns l, PForwardResult (PNum (NInt 3)) PNone l)
  /\ CalcMetricsWrapper default_calc_metrics (PForwardResult (PNum (NInt 3)) PNone l)
     = Returns (VDict [("loss", VNum (NFloat (FFin 1)))]).
Proof.
  intros l func.
  destruct (train_step_tuple_or_dict func tt PNone (PNum (NInt 3)) PNone true [1%nat]
              [NFloat (FFin 1)] eq_refl) as (_ & H1 & H2).
  - right. eexists. split; [reflexivity|]. split.
    + by apply (bool_decide_unpack _).
    + unfold l. apply (Permutation_cons_append [_; _]).
  - split; [exact H1 | exact H2].
Defined.

End ForwardSteps.

(** * model.py: metrics with strings *)

Section MetricsWithStrings.

Import ModelUtils Metrics.

Lemma answer_map_returned {A B} (f : A -> B) (r : answer A) (b : B) :
  answer_map f r = Returned b <-> exists a, r = Returned a /\ b = f a.
Proof.
  destruct r as [a|]; cbn; split.
  - intros [= <-]. eauto.
  - by intros (a' & [= <-] & ->).
  - done.
  - by intros (a' & ? & _).
Qed.

(** A comprehension returns when each of its elements does. *)
Lemma collect_map {A B} (f : A -> answer B) (l : list A) (l' : list B) :
  collect (map f l) = Returned l' <-> Forall2 (fun x y => f x = Returned y) l l'.
Proof.
  revert l'. induction l as [|x l IH]; intros l'; cbn.
  - split; [intros [= <-]; constructor | by inversion 1].
  - destruct (f x) as [y|] eqn:E.
    + rewrite answer_map_returned. split.
      * intros (r & Hr & ->). constructor; [done | by apply IH].
      * inversion 1 as [|? y' ? r Hy Hr]; subst. rewrite E in Hy. injection Hy as <-.
        exists r. split; [by apply IH | done].
    + split; [done|]. inversion 1 as [|? y' ? r Hy Hr]; subst. by rewrite E in Hy.
Qed.

Lemma collect_map_items (f : metric -> answer metric) (items items' : list (string * metric)) :
  collect (map (fun kv => match kv with (k, v) => answer_map (pair k) (f v) end) items)
  = Returned items'
  <-> Forall2 (fun kv kv' => kv'.1 = kv.1 /\ f kv.2 = Returned kv'.2) items items'.
Proof.
  rewrite collect_map.
  split; intros H; (eapply Forall2_impl; [exact H|]); intros [k v] [k' v']; cbn;
    rewrite answer_map_returned.
  - by intros (a & -> & [= -> ->]).
  - intros [-> ->]. eauto.
Qed.

Lemma collect_returns {A B} (f : A -> answer B) (P : A -> Prop) (l : list A) :
  (forall x, (exists y, f x = Returned y) <-> P x) ->
  (exists l', collect (map f l) = Returned l') <-> Forall P l.
Proof.
  intros Hf. induction l as [|x l IH]; cbn; [split; eauto|].
  rewrite Forall_cons, <- Hf, <- IH. destruct (f x) as [y|]; cbn.
  - destruct (collect (map f l)) as [l'|]; cbn.
    + split; eauto.
    + split; [by intros [? ?] | by intros [_ [? ?]]].
  - split; [by intros [? ?] | by intros [[? ?] _]].
Qed.

Lemma answer_map_returns {A B} (g : A -> B) (r : answer A) :
  (exists b, answer_map g r = Returned b) <-> exists a, r = Returned a.
Proof.
  destruct r as [a|]; cbn; split; eauto; by intros [? ?].
Qed.

Lemma depth_elems_le {A} (d : A -> nat) (l : list A) (n : nat) :
  (foldr (fun x acc => Nat.max (d x) acc) O l <= n)%nat <-> Forall (fun x => (d x <= n)%nat) l.
Proof.
  induction l as [|x l IH]; cbn.
  - split; [constructor | lia].
  - rewrite Forall_cons, <- IH. lia.
Qed.

Lemma depth_items_le (items : list (string * metric)) (n : nat) :
  (foldr (fun kv acc => match kv with (_, x) => Nat.max (depth x) acc end) O items <= n)%nat
  <-> Forall (fun kv => (depth kv.2 <= n)%nat) items.
Proof.
  induction items as [|[k x] l IH]; cbn.
  - split; [constructor | lia].
  - rewrite Forall_cons, <- IH. cbn. lia.
Qed.

Lemma forallb_Forall {A} (P : A -> bool) (l : list A) :
  forallb P l = true <-> Forall (fun x => P x = true) l.
Proof.
  induction l as [|x l IH]; cbn; [split; [constructor|done]|].
  by rewrite andb_true_iff, Forall_cons, IH.
Qed.

(** On a [str] that is not empty [normalize_item] never returns,
    whatever the recursion limit: its first character is a [str] that
    is not empty either. *)
Lemma normalize_item_str (limit : nat) (c : ascii) (s : string) :
  normalize_item limit (MStr (String c s)) = RecursionError.
Proof.
  revert c s. induction limit as [|n IH]; intros c s; [done|].
  cbn [normalize_item characters String.list_ascii_of_string map collect].
  by rewrite IH.
Qed.

(** What [normalize_item] returns is in normal form. *)
Lemma normalize_item_normal (limit : nat) (x y : metric) :
  normalize_item limit x = Returned y -> normal y = true.
Proof.
  revert x y. induction limit as [|n IH]; intros x y; [done|].
  destruct x as [s|items|elems|shape data|rg shape data|kind elems|m| |id];
    cbn [normalize_item].
  - rewrite answer_map_returned. intros (l & Hc & ->). apply collect_map in Hc.
    cbn [normal]. apply forallb_Forall. eapply Forall2_Forall_r; [exact Hc|].
    apply Forall_forall. intros ? _ ?. apply IH.
  - rewrite answer_map_returned. intros (l & Hc & ->). apply collect_map_items in Hc.
    cbn [normal]. apply forallb_Forall. eapply Forall2_Forall_r; [exact Hc|].
    apply Forall_forall. intros [k v] _ [k' v'] [_ Hv]. by apply (IH v).
  - rewrite answer_map_returned. intros (l & Hc & ->). apply collect_map in Hc.
    cbn [normal]. apply forallb_Forall. eapply Forall2_Forall_r; [exact Hc|].
    apply Forall_forall. intros ? _ ?. apply IH.
  - by intros [= <-].
  - destruct (squeeze_shape shape) eqn:E; intros [= <-]; [done|].
    cbn. rewrite E. by apply bool_decide_eq_true.
  - rewrite answer_map_returned. intros (l & Hc & ->). apply collect_map in Hc.
    cbn [normal]. apply forallb_Forall. eapply Forall2_Forall_r; [exact Hc|].
    apply Forall_forall. intros ? _ ?. apply IH.
  - by intros [= <-].
  - by intros [= <-].
  - by intros [= <-].
Qed.

Lemma Forall2_diag {A} (R : A -> A -> Prop) (l : list A) :
  Forall (fun x => R x x) l -> Forall2 R l l.
Proof. induction 1; by constructor. Qed.

(** What [normalize_item] returns it returns again, within the same
    recursion limit. *)
Lemma normalize_item_again (limit : nat) (x y : metric) :
  normalize_item limit x = Returned y -> normalize_item limit y = Returned y.
Proof.
  revert x y. induction limit as [|n IH]; intros x y; [done|].
  assert (Hel : forall (l l' : list metric),
             Forall2 (fun v v' => normalize_item n v = Returned v') l l' ->
             collect (map (normalize_item n) l') = Returned l').
  { intros l l' Hc. apply collect_map, Forall2_diag.
    eapply Forall2_Forall_r; [exact Hc|]. apply Forall_forall. intros ? _ ?. apply IH. }
  destruct x as [s|items|elems|shape data|rg shape data|kind elems|m| |id];
    cbn [normalize_item].
  - rewrite answer_map_returned. intros (l & Hc & ->). apply collect_map in Hc.
    cbn [normalize_item]. by rewrite (Hel _ _ Hc).
  - rewrite answer_map_returned. intros (l & Hc & ->). apply collect_map_items in Hc.
    cbn [normalize_item]. apply answer_map_returned. exists l. split; [|done].
    apply collect_map_items, Forall2_diag. eapply Forall2_Forall_r; [exact Hc|].
    apply Forall_forall. intros [k v] _ [k' v'] [_ Hv]. split; [done|]. by apply (IH v).
  - rewrite answer_map_returned. intros (l & Hc & ->). apply collect_map in Hc.
    cbn [normalize_item]. by rewrite (Hel _ _ Hc).
  - by intros [= <-].
  - destruct (squeeze_shape shape) eqn:E; intros [= <-]; [done|].
    cbn [normalize_item]. by rewrite E.
  - rewrite answer_map_returned. intros (l & Hc & ->). apply collect_map in Hc.
    cbn [normalize_item]. by rewrite (Hel _ _ Hc).
  - by intros [= <-].
  - by intros [= <-].
  - by intros [= <-].
Qed.

(** [normalize_item] returns on the metrics without a [str] that nest
    no deeper than the recursion limit, and on no other. *)
Lemma normalize_item_returns (limit : nat) (x : metric) :
  (exists y, normalize_item limit x = Returned y)
  <-> str_free x = true /\ (depth x <= limit)%nat.
Proof.
  revert x. induction limit as [|n IH]; intros x.
  { split; [by intros [? ?]|]. intros [_ Hd]. destruct x; cbn in Hd; lia. }
  destruct x as [s|items|elems|shape data|rg shape data|kind elems|m| |id];
    cbn [normalize_item str_free depth].
  - destruct s as [|c s].
    + cbn. split; [intros _; split; [done|lia] | eauto].
    + cbn [characters String.list_ascii_of_string map collect].
      rewrite normalize_item_str. split; [by intros [? ?] | by intros [? _]].
  - rewrite answer_map_returns.
    rewrite (collect_returns _ (fun kv => str_free kv.2 = true /\ (depth kv.2 <= n)%nat)).
    + rewrite Forall_and, forallb_Forall, <- Nat.succ_le_mono, depth_items_le.
      split; (intros [H1 H2]; split; [|done]); (eapply Forall_impl; [exact H1|]); by intros [? ?].
    + intros [k v]. rewrite answer_map_returns. apply IH.
  - rewrite answer_map_returns.
    rewrite (collect_returns _ (fun v => str_free v = true /\ (depth v <= n)%nat)) by apply IH.
    by rewrite Forall_and, forallb_Forall, <- Nat.succ_le_mono, depth_elems_le.
  - split; [intros _; split; [done|lia] | eauto].
  - split; [intros _; split; [done|lia] |]. destruct (squeeze_shape shape); eauto.
  - rewrite answer_map_returns.
    rewrite (collect_returns _ (fun v => str_free v = true /\ (depth v <= n)%nat)) by apply IH.
    by rewrite Forall_and, forallb_Forall, <- Nat.succ_le_mono, depth_elems_le.
  - split; [intros _; split; [done|lia] | eauto].
  - split; [intros _; split; [done|lia] | eauto].
  - split; [intros _; split; [done|lia] | eauto].
Qed.

(** A normal form that nests no deeper than the recursion limit is
    returned as it is. *)
Lemma normal_fixed (limit : nat) (x : metric) :
  normal x = true -> (depth x <= limit)%nat -> normalize_item limit x = Returned x.
Proof.
  revert x. induction limit as [|n IH]; intros x Hn Hd.
  { destruct x; cbn in Hd; lia. }
  destruct x as [s|items|elems|shape data|rg shape data|kind elems|m| |id];
    cbn [normalize_item normal depth] in *; try done.
  - apply answer_map_returned. exists items. split; [|done].
    apply collect_map_items, Forall2_diag.
    apply forallb_Forall in Hn. apply Nat.succ_le_mono, depth_items_le in Hd.
    eapply Forall_impl; [exact (proj2 (Forall_and _ _) (conj Hn Hd))|].
    intros [k v] [? ?]. split; [done|]. by apply IH.
  - apply answer_map_returned. exists elems. split; [|done].
    apply collect_map, Forall2_diag.
    apply forallb_Forall in Hn. apply Nat.succ_le_mono, depth_elems_le in Hd.
    eapply Forall_impl; [exact (proj2 (Forall_and _ _) (conj Hn Hd))|].
    intros v [? ?]. by apply IH.
  - apply andb_true_iff in Hn as [Hrg Hs]. apply negb_true_iff in Hrg as ->.
    apply bool_decide_eq_true in Hs. by destruct (squeeze_shape shape).
  - destruct kind; try done. apply answer_map_returned. exists elems. split; [|done].
    apply collect_map, Forall2_diag.
    apply forallb_Forall in Hn. apply Nat.succ_le_mono, depth_elems_le in Hd.
    eapply Forall_impl; [exact (proj2 (Forall_and _ _) (conj Hn Hd))|].
    intros v [? ?]. by apply IH.
Qed.

(** On the values without [str] the two embeddings of [_normalize]
    agree, within the recursion limit. *)
Lemma normalize_embed (limit : nat) (v : value) :
  (depth (embed v) <= limit)%nat ->
  Metrics.normalize limit (embed v) = Returned (embed (ModelUtils.normalize v)).
Proof.
  unfold Metrics.normalize, ModelUtils.normalize. revert limit.
  induction v as [items IH|elems IH|shape data|rg shape data|kind elems IH|n| |id]
    using value_rect_nested; intros [|limit] Hd;
    cbn [embed depth] in Hd; try lia;
    cbn [embed ModelUtils.normalize_item normalize_item]; try done.
  - apply answer_map_returned. eexists. split; [|reflexivity].
    apply Nat.succ_le_mono, depth_items_le in Hd.
    rewrite map_map. apply collect_map. rewrite map_map.
    induction IH as [|[k v] items Hv _ IHitems]; cbn; [constructor|].
    cbn in Hd. apply Forall_cons in Hd as [Hdv Hd]. cbn in Hv, Hdv.
    constructor; [|by apply IHitems]. by rewrite Hv.
  - apply answer_map_returned. eexists. split; [|reflexivity].
    apply Nat.succ_le_mono, depth_elems_le in Hd.
    rewrite !map_map. apply collect_map.
    induction IH as [|v elems Hv _ IHelems]; cbn; [constructor|].
    cbn in Hd. apply Forall_cons in Hd as [Hdv Hd].
    constructor; [by apply Hv | by apply IHelems].
  - by destruct (squeeze_shape shape).
  - apply answer_map_returned. eexists. split; [|reflexivity].
    apply Nat.succ_le_mono, depth_elems_le in Hd.
    rewrite !map_map. apply collect_map.
    induction IH as [|v elems Hv _ IHelems]; cbn; [constructor|].
    cbn in Hd. apply Forall_cons in Hd as [Hdv Hd].
    constructor; [by apply Hv | by apply IHelems].
Qed.

(** A [str] that is not empty, alone or as a value in a dict or a list
    of metrics, ends [_normalize] in [RecursionError], whatever the
    recursion limit. *)
Lemma normalize_item_holding_str (limit : nat) :
  normalize_item limit (MStr "loss") = RecursionError
  /\ normalize_item limit (MDict [("loss", MNum (NFloat (FFin 1))); ("name", MStr "a")])
     = RecursionError
  /\ normalize_item limit (MList [MStr "a"]) = RecursionError.
Proof.
  split; [apply normalize_item_str|].
  destruct limit as [|n]; [done|]. cbn [normalize_item map collect].
  rewrite normalize_item_str. by destruct n.
Qed.

(** C5, as the claim has it, fails: a [str] is an iterable too, and on a
    [str] that is not empty, alone or as a value in a dict or a list of
    metrics, [_normalize] does not return: under the recursion limit
    Python starts with, as under any other, it ends in [RecursionError],
    so there is no [normalize(x)] to normalise again. *)
Lemma normalize_str_recursion :
  normalize recursion_limit (MStr "loss") = RecursionError
  /\ normalize recursion_limit
       (MDict [("loss", MNum (NFloat (FFin 1))); ("name", MStr "a")]) = RecursionError
  /\ normalize recursion_limit (MList [MStr "a"]) = RecursionError.
Proof. apply normalize_item_holding_str. Qed.

(** C5, amended: [_normalize] returns exactly on the values in which no
    [str] other than the empty one occurs and which nest no deeper than
    the interpreter's recursion limit, and there it is idempotent: what
    it returns, for every finite nesting of mappings, lists, arrays,
    tensors, other iterables and scalars, is returned unchanged when it
    is normalised again. *)
Theorem normalize_idempotent_without_str (limit : nat) (x : metric) :
  ((exists y, normalize limit x = Returned y)
   <-> str_free x = true /\ (depth x <= limit)%nat)
  /\ (forall y, normalize limit x = Returned y -> normalize limit y = Returned y).
Proof.
  split; [apply normalize_item_returns | apply normalize_item_again].
Qed.

(** X18: whatever [_normalize] returns is in normal form, and the normal
    forms are exactly the values it returns as they are: values in which
    there is no [str], no tensor is attached or holds a single element,
    and every iterable other than a dict, a list or an array is a tuple
    (and which nest no deeper than the recursion limit). *)
Theorem normalize_normal_form (limit : nat) (x : metric) :
  (forall y, normalize limit x = Returned y -> normal y = true)
  /\ (normalize limit x = Returned x <-> normal x = true /\ (depth x <= limit)%nat).
Proof.
  split; [apply normalize_item_normal|]. split.
  - intros Hx. split; [by apply (normalize_item_normal limit x)|].
    apply (normalize_item_returns limit x). eauto.
  - intros [? ?]. by apply normal_fixed.
Qed.

End MetricsWithStrings.
